(** * Tic-Tac-Toe (React front end): the game engine of [App.js]

    A shallow embedding of the logic-bearing part of
    [src/tic_tac_toe_frontend/src/App.js]: the board helpers
    ([LINES], [calculateWinner], [pickRandomMove]), the computer opponent
    ([findBestAIMove], [emptyIndices]) and the state of the [App] component
    with its event handlers and effects.

    JavaScript arrays are modelled as lists read with stdpp's lookup; what
    JavaScript does at an index past the end (a read gives [undefined], a
    write extends the array) is written out in [read] and [write]. *)

From stdpp Require Import base list strings sorting.

(** ** Values held by a board *)

(** The two strings ['X'] and ['O']. *)
Inductive player := X | O.

#[global] Instance player_eq_dec : EqDecision player.
Proof. solve_decision. Defined.

(** What reading a cell can give: [undefined], [null], or a player's mark.
    Inside a list, [Undefined] stands for a hole of the array (a slot that
    was never written); the code never stores [undefined] itself. *)
Inductive value := Undefined | Null | Mark (p : player).

#[global] Instance value_eq_dec : EqDecision value.
Proof. solve_decision. Defined.

(** [squares[i]]: a hole and an index past the end both read [undefined]. *)
Definition read (squares : list value) (i : nat) : value :=
  default Undefined (squares !! i).

(** [copy[i] = v] on a fresh copy: in range the slot is replaced; past the
    end JavaScript extends the array, leaving holes in between. *)
Definition write (squares : list value) (i : nat) (v : value) : list value :=
  if decide (i < length squares) then <[i:=v]> squares
  else squares ++ replicate (i - length squares) Undefined ++ [v].

(** JavaScript truthiness of a cell: only the non-empty strings are truthy. *)
Definition truthy (v : value) : bool :=
  match v with Mark _ => true | _ => false end.

(** ** Board helpers *)

Definition LINES : list (nat * nat * nat) :=
  [ (0,1,2); (3,4,5); (6,7,8);   (* rows *)
    (0,3,6); (1,4,7); (2,5,8);   (* cols *)
    (0,4,8); (2,4,6) ].          (* diagonals *)

(** The object [calculateWinner] returns; an absent [isDraw] is [false]. *)
Record result := mkResult {
  winner : value;
  line : list nat;
  isDraw : bool
}.

#[global] Instance result_eq_dec : EqDecision result.
Proof. solve_decision. Defined.

(** The [for (const [a,b,c] of LINES)] loop, over the lines still to scan. *)
Fixpoint scanLines (squares : list value) (ls : list (nat * nat * nat))
  : option result :=
  match ls with
  | [] => None
  | (a, b, c) :: rest =>
      if truthy (read squares a)
         && bool_decide (read squares a = read squares b)
         && bool_decide (read squares a = read squares c)
      then Some (mkResult (read squares a) [a; b; c] false)
      else scanLines squares rest
  end.

(** [squares.every(Boolean)]: [every] skips holes, so only a [null] entry
    makes it false. *)
Definition every_Boolean (squares : list value) : bool :=
  forallb (fun v => match v with Null => false | _ => true end) squares.

(** [calculateWinner]; [None] is the [null] it returns for a game going on. *)
Definition calculateWinner (squares : list value) : option result :=
  match scanLines squares LINES with
  | Some res => Some res
  | None =>
      if every_Boolean squares then Some (mkResult Null [] true) else None
  end.

(** [emptyIndices]: the indices below [board.length] whose read is falsy. *)
Definition emptyIndices (board : list value) : list nat :=
  filter (fun i => truthy (read board i) = false) (seq 0 (length board)).

(** ** The random source

    [Math.floor(Math.random() * n)] is taken from an injected source
    [rnd : nat -> nat], the index drawn for a list of [n] candidates.
    [Math.random()] lies in [[0, 1)], so for the lengths used here (at most
    9) the index is below [n]; theorems that depend on it assume [in_range]. *)
Definition in_range (rnd : nat -> nat) : Prop :=
  forall n, 0 < n -> rnd n < n.

(** [pickRandomMove]: [map] and [filter] skip holes, so [empty] holds the
    indices of the [null] entries; [None] is [null]. *)
Definition pickRandomMove (rnd : nat -> nat) (board : list value)
  : option nat :=
  let empty :=
    omap id (imap (fun i v => if truthy v then None
                              else match v with Undefined => None | _ => Some i end)
                  board) in
  if decide (length empty = 0) then None
  else empty !! rnd (length empty).

(** ** The computer opponent *)

(** [calculateWinner(copy)?.winner === p] for the copy with [p] at [i]. *)
Definition winsAt (board : list value) (p : player) (i : nat) : bool :=
  match calculateWinner (write board i (Mark p)) with
  | Some res => bool_decide (winner res = Mark p)
  | None => false
  end.

(** [findBestAIMove]; [None] is [null]. A read of [corners] or [sides] past
    the end would give [undefined], which the caller's [??] and guard treat
    as [null]; with a source [in_range] it does not happen. *)
Definition findBestAIMove (rnd : nat -> nat) (board : list value)
    (ai human : player) : option nat :=
  (* 1. Win if possible *)
  match List.find (winsAt board ai) (emptyIndices board) with
  | Some i => Some i
  | None =>
  (* 2. Block if human can win *)
  match List.find (winsAt board human) (emptyIndices board) with
  | Some i => Some i
  | None =>
  (* 3. Take center *)
  if decide (read board 4 = Null) then Some 4 else
  (* 4. Corners *)
  let corners := filter (fun i => read board i = Null) [0; 2; 6; 8] in
  if decide (length corners ≠ 0) then corners !! rnd (length corners) else
  (* 5. Sides *)
  let sides := filter (fun i => read board i = Null) [1; 3; 5; 7] in
  if decide (length sides ≠ 0) then sides !! rnd (length sides) else
  None
  end end.

(** ** The state of the [App] component *)

Inductive game_mode := pvp | cpu.

#[global] Instance game_mode_eq_dec : EqDecision game_mode.
Proof. solve_decision. Defined.

(** The [scores] object [{ X, O, Draws }]. The counters are JavaScript
    numbers; they are modelled as naturals (a session stays far below
    2^53, where adding one to a double stops being exact). *)
Record scoreboard := mkScores {
  scoreX : nat;
  scoreO : nat;
  Draws : nat
}.

(** The five [useState] cells of the game (the theme flag [dark] does not
    take part in the game). *)
Record session := mkSession {
  board : list value;
  xIsNext : bool;
  mode : game_mode;
  scores : scoreboard;
  highlight : list nat
}.

(** [useState] initial values. *)
Definition initial : session :=
  mkSession (replicate 9 Null) true pvp (mkScores 0 0 0) [].

(** [{ ...s, [w]: (s[w] || 0) + 1 }] for [w] one of ['X'], ['O']. *)
Definition addWin (w : player) (s : scoreboard) : scoreboard :=
  match w with
  | X => mkScores (scoreX s + 1) (scoreO s) (Draws s)
  | O => mkScores (scoreX s) (scoreO s + 1) (Draws s)
  end.

(** [{ ...s, Draws: s.Draws + 1 }]. *)
Definition addDraw (s : scoreboard) : scoreboard :=
  mkScores (scoreX s) (scoreO s) (Draws s + 1).

(** The effect with dependency [[board]]: detect winner or draw, update
    scores and highlight. React runs it after a render in which [board] is
    a new array. *)
Definition scoreEffect (st : session) : session :=
  match calculateWinner (board st) with
  | Some res =>
      match winner res with
      | Mark w =>
          mkSession (board st) (xIsNext st) (mode st)
                    (addWin w (scores st)) (line res)
      | _ =>
          if isDraw res
          then mkSession (board st) (xIsNext st) (mode st)
                         (addDraw (scores st)) (highlight st)
          else mkSession (board st) (xIsNext st) (mode st) (scores st) []
      end
  | None => mkSession (board st) (xIsNext st) (mode st) (scores st) []
  end.

(** [handleClick(i)]. [None]: the handler returned before calling a setter,
    so nothing is rendered again. [Some st']: the state after [setBoard] and
    [setXIsNext]. *)
Definition handleClick (i : nat) (st : session) : option session :=
  if bool_decide (is_Some (calculateWinner (board st)))
     || truthy (read (board st) i)
  then None
  else if bool_decide (mode st = cpu) && negb (xIsNext st) then None
  else Some (mkSession
               (write (board st) i (Mark (if xIsNext st then X else O)))
               (negb (xIsNext st)) (mode st) (scores st) (highlight st)).

(** [resetBoard()]: always installs a new (empty) board array. *)
Definition resetBoard (st : session) : session :=
  mkSession (replicate 9 Null) true (mode st) (scores st) [].

(** [resetScores()]: the board array is left as it is. *)
Definition resetScores (st : session) : session :=
  mkSession (board st) (xIsNext st) (mode st) (mkScores 0 0 0) (highlight st).

(** [setMode(m)] of the two mode buttons. *)
Definition setMode (m : game_mode) (st : session) : session :=
  mkSession (board st) (xIsNext st) m (scores st) (highlight st).

(** [a ?? b]. *)
Definition orElse {A} (a b : option A) : option A :=
  match a with Some x => Some x | None => b end.

(** The CPU effect and the callback of its timer. The timer is cleared
    whenever [mode], [xIsNext] or [board] change, so when it fires the state
    is the one the effect saw. [rnd] and [rnd'] are the random sources of
    [findBestAIMove] and [pickRandomMove]. [None]: no setter is called. *)
Definition cpuMove (rnd rnd' : nat -> nat) (st : session) : option session :=
  if bool_decide (mode st = cpu)
     && negb (bool_decide (is_Some (calculateWinner (board st))))
     && negb (xIsNext st)
  then
    match orElse (findBestAIMove rnd (board st) O X)
                 (pickRandomMove rnd' (board st)) with
    | Some move =>
        if decide (read (board st) move = Null)
        then Some (mkSession (write (board st) move (Mark O)) true
                             (mode st) (scores st) (highlight st))
        else None
    | None => None
    end
  else None.

(** What can happen to the component: a click on cell [i], the CPU timer
    firing, the two reset buttons, a mode button. *)
Inductive action :=
  | Click (i : nat)
  | CpuTimer (rnd rnd' : nat -> nat)
  | ResetBoard
  | ResetScores
  | SelectMode (m : game_mode).

(** One event followed by the render it causes: the [[board]] effect runs
    exactly when the handler installed a new board array. *)
Definition step (st : session) (a : action) : session :=
  match a with
  | Click i =>
      match handleClick i st with
      | Some st' => scoreEffect st'
      | None => st
      end
  | CpuTimer rnd rnd' =>
      match cpuMove rnd rnd' st with
      | Some st' => scoreEffect st'
      | None => st
      end
  | ResetBoard => scoreEffect (resetBoard st)
  | ResetScores => resetScores st
  | SelectMode m => scoreEffect (resetBoard (setMode m st))
  end.

(** A sequence of events from a state. *)
Definition run (st : session) (acts : list action) : session :=
  foldl step st acts.

(** ** Vocabulary of the specification *)

(** A board of the data model: 9 cells, each [null], ['X'] or ['O']. *)
Definition wf_board (b : list value) : Prop :=
  length b = 9 /\ Forall (fun v => v <> Undefined) b.

(** Line [(a,b,c)] holds three marks of [p]. *)
Definition holds (b : list value) (l : nat * nat * nat) (p : player) : Prop :=
  let '(i, j, k) := l in
  b !! i = Some (Mark p) /\ b !! j = Some (Mark p) /\ b !! k = Some (Mark p).

#[global] Instance holds_dec b l p : Decision (holds b l p).
Proof. destruct l as [[i j] k]; simpl; apply _. Defined.

(** Some winning line is uniform and non-empty. *)
Definition some_line (b : list value) : Prop :=
  exists l p, l ∈ LINES /\ holds b l p.


(** Cell [i] exists and is empty. *)
Definition empty_at (b : list value) (i : nat) : Prop :=
  b !! i = Some Null.

(** The results of the specification's [evaluate]. *)
Definition Won (m : player) (l : nat * nat * nat) : result :=
  let '(i, j, k) := l in mkResult (Mark m) [i; j; k] false.

Definition Draw : result := mkResult Null [] true.

(** Cell [i] is empty and putting [p] there makes the evaluator report a
    win of [p]. *)
Definition wins_by (b : list value) (p : player) (i : nat) : Prop :=
  empty_at b i /\
  exists l, calculateWinner (<[i:=Mark p]> b) = Some (Won p l).

(** [k] is the smallest number with property [P]. *)
Definition least (P : nat -> Prop) (k : nat) : Prop :=
  P k /\ forall j, P j -> k <= j.

(** The game is over on the board of [st]. *)
Definition terminal (st : session) : Prop :=
  is_Some (calculateWinner (board st)).

(** The target cell of a click holds a mark. *)
Definition occupied (st : session) (i : nat) : Prop :=
  exists p, board st !! i = Some (Mark p).

(** It is the computer's turn: mode [cpu] and O to move. *)
Definition cpu_turn (st : session) : Prop :=
  mode st = cpu /\ xIsNext st = false.

(** The three counters of the scoreboard, and the one of a player. *)
Inductive counter := CX | CO | CDraws.

#[global] Instance counter_eq_dec : EqDecision counter.
Proof. solve_decision. Defined.

Definition count (c : counter) (s : scoreboard) : nat :=
  match c with CX => scoreX s | CO => scoreO s | CDraws => Draws s end.

Definition counter_of (m : player) : counter :=
  match m with X => CX | O => CO end.

(** What one event adds to the scoreboard according to the outcome before
    and after it: one win for a step from a game going on to a won board,
    one draw for a step from a game going on to a drawn board, nothing
    otherwise. *)
Definition credit (before after : option result) (s : scoreboard)
  : scoreboard :=
  match before, after with
  | None, Some res =>
      match winner res with
      | Mark m => addWin m s
      | _ => addDraw s
      end
  | _, _ => s
  end.

(** The scoreboard a sequence of events should leave, counted from the
    outcomes along the run alone. *)
Fixpoint expected_scores (st : session) (s : scoreboard) (acts : list action)
  : scoreboard :=
  match acts with
  | [] => s
  | a :: rest =>
      let st' := step st a in
      expected_scores st'
        (match a with
         | ResetScores => mkScores 0 0 0
         | _ => credit (calculateWinner (board st))
                       (calculateWinner (board st')) s
         end)
        rest
  end.

(** ** The status line and further vocabulary *)

(** The string a player's mark is. *)
Definition player_string (p : player) : string :=
  match p with X => "X" | O => "O" end.

(** The [status] memo: [`${res.winner} wins`], ['Draw'], or
    [`Turn: ${xIsNext ? 'X' : 'O'}`]. *)
Definition status (st : session) : string :=
  let turn := String.append "Turn: " (if xIsNext st then "X" else "O") in
  match calculateWinner (board st) with
  | Some res =>
      match winner res with
      | Mark w => String.append (player_string w) " wins"
      | _ => if isDraw res then "Draw" else turn
      end
  | None => turn
  end.

(** The player whose mark [handleClick] writes. *)
Definition mover (st : session) : player :=
  if xIsNext st then X else O.

(** The number of cells holding the mark of [p], and of [null] cells. *)
Definition marks (p : player) (b : list value) : nat :=
  length (filter (fun v => v = Mark p) b).

Definition nulls (b : list value) : nat :=
  length (filter (fun v => v = Null) b).

(** The events that place a mark: a click and the CPU timer. *)
Definition is_move (a : action) : Prop :=
  match a with Click _ | CpuTimer _ _ => True | _ => False end.

(** Every click of the event is on one of the nine rendered cells. *)
Definition click_in_range (a : action) : Prop :=
  match a with Click i => i < 9 | _ => True end.

(** What [highlight] should be for the outcome of a board. *)
Definition winning_line (b : list value) : list nat :=
  match calculateWinner b with
  | Some res => line res
  | None => []
  end.

(** Cell [k] is one of the three cells of line [l]. *)
Definition on_line (k : nat) (l : nat * nat * nat) : Prop :=
  let '(a, b, c) := l in k = a \/ k = b \/ k = c.

(** What play depends on: everything in the state but the scores. *)
Definition game (st : session) : list value * bool * game_mode * list nat :=
  (board st, xIsNext st, mode st, highlight st).

(** The sum of the three counters. *)
Definition total (s : scoreboard) : nat := scoreX s + scoreO s + Draws s.

#[global] Instance scoreboard_eq_dec : EqDecision scoreboard.
Proof. solve_decision. Defined.

#[global] Instance session_eq_dec : EqDecision session.
Proof. solve_decision. Defined.

(** The number of events of a sequence that change the state. *)
Fixpoint effective (st : session) (acts : list action) : nat :=
  match acts with
  | [] => 0
  | a :: rest =>
      (if decide (step st a = st) then 0 else 1) + effective (step st a) rest
  end.

(** The random source that draws candidate [idx] whenever there is one. *)
Definition draw_at (idx : nat) : nat -> nat :=
  fun n => if decide (idx < n) then idx else 0.

(** ** Concrete boards and states used in the checks below *)

(** X holds column 0 and the main diagonal; no row is complete. *)
Definition two_lines : list value :=
  [ Mark X; Mark O; Mark O;
    Mark X; Mark X; Mark O;
    Mark X; Mark O; Mark X ].

(** O can win at 2 and X can win at 5. *)
Definition both_can_win : list value :=
  [ Mark O; Mark O; Null;
    Mark X; Mark X; Null;
    Null; Null; Null ].

(** X threatens row 0. *)
Definition x_threat : list value :=
  [ Mark X; Mark X; Null; Null; Null; Null; Null; Null; Null ].

(** Only the center is taken: the corner tier decides. *)
Definition center_taken : list value :=
  [ Null; Null; Null; Null; Mark X; Null; Null; Null; Null ].

(** The random sources that always draw the first, resp. second, candidate
    (the second only where there is one). *)
Definition first_candidate : nat -> nat := fun _ => 0.
Definition second_candidate : nat -> nat := fun n => if decide (1 < n) then 1 else 0.

(** X is about to complete row 0. *)
Definition before_win : session :=
  run initial [Click 0; Click 4; Click 1; Click 7].

(** The computer is to move after X took a corner. *)
Definition cpu_to_move : session :=
  run initial [SelectMode cpu; Click 0].

(** In mode [cpu]: X took 0, the computer the center, X took 1 and now
    threatens to complete row 0. *)
Definition cpu_must_block : session :=
  run initial [SelectMode cpu; Click 0;
               CpuTimer first_candidate second_candidate; Click 1].

(** The game continued: the computer blocked at 2, X took 3, and now O can
    complete the diagonal 2, 4, 6. *)
Definition cpu_can_win : session :=
  run cpu_must_block [CpuTimer first_candidate second_candidate; Click 3].

(** The nine clicks of a drawn game. *)
Definition drawn_game : list action :=
  [Click 0; Click 1; Click 2; Click 4; Click 6;
   Click 8; Click 5; Click 3; Click 7].

(** Clicks of which the second (on a taken cell) is ignored. *)
Definition three_clicks : list action := [Click 0; Click 0; Click 4].

(** ** Sanity checks on concrete boards *)

Example calculateWinner_row0 :
  calculateWinner [Mark X; Mark X; Mark X; Null; Mark O; Null; Null; Mark O; Null]
  = Some (mkResult (Mark X) [0; 1; 2] false).
Proof. reflexivity. Qed.

Example opponent_completes_row0 :
  findBestAIMove (fun _ => 0)
    [Mark O; Mark O; Null; Null; Null; Null; Null; Null; Null] O X = Some 2.
Proof. reflexivity. Qed.

Example opponent_blocks_row0 :
  findBestAIMove (fun _ => 0)
    [Mark X; Mark X; Null; Null; Null; Null; Null; Null; Null] O X = Some 2.
Proof. reflexivity. Qed.

(** ** Reading and writing cells *)

Lemma read_Mark (b : list value) i p :
  read b i = Mark p <-> b !! i = Some (Mark p).
Proof.
  unfold read. destruct (b !! i) as [v|]; simpl; split; congruence.
Qed.

Lemma read_Null_wf (b : list value) i :
  Forall (fun v => v <> Undefined) b ->
  read b i = Null <-> b !! i = Some Null.
Proof.
  intros Hb. unfold read. destruct (b !! i) as [v|]; simpl; split; congruence.
Qed.

Lemma truthy_true v : truthy v = true <-> exists p, v = Mark p.
Proof.
  destruct v; simpl; split; try discriminate; eauto.
  all: intros [q Hq]; discriminate.
Qed.

Lemma truthy_false_wf (b : list value) i :
  Forall (fun v => v <> Undefined) b -> i < length b ->
  truthy (read b i) = false <-> b !! i = Some Null.
Proof.
  intros Hb Hi. unfold read.
  destruct (lookup_lt_is_Some_2 b i Hi) as [v Hv]. rewrite Hv. simpl.
  assert (v <> Undefined) as Hne.
  { eapply (proj1 (Forall_forall _ _) Hb), list_elem_of_lookup; eauto. }
  destruct v; simpl; split; congruence.
Qed.

(** ** The line scan *)

(** The test of one line in the loop of [calculateWinner]. *)
Lemma line_test (s : list value) a b c :
  truthy (read s a)
  && bool_decide (read s a = read s b)
  && bool_decide (read s a = read s c) = true
  <-> exists p, holds s (a, b, c) p.
Proof.
  rewrite !andb_true_iff, !bool_decide_eq_true, truthy_true. split.
  - intros [[[p Hp] Hb] Hc]. exists p. simpl.
    rewrite <- !read_Mark. rewrite <- Hb, <- Hc. auto.
  - intros [p (Ha & Hb & Hc)]. apply read_Mark in Ha, Hb, Hc.
    rewrite Ha, Hb, Hc. eauto.
Qed.

Lemma line_test_false (s : list value) a b c p :
  truthy (read s a)
  && bool_decide (read s a = read s b)
  && bool_decide (read s a = read s c) = false ->
  ~ holds s (a, b, c) p.
Proof.
  intros Ht Hh. assert (exists q, holds s (a, b, c) q) as Hex by eauto.
  apply line_test in Hex. congruence.
Qed.

Lemma scanLines_None (s : list value) ls :
  scanLines s ls = None <-> forall l p, l ∈ ls -> ~ holds s l p.
Proof.
  induction ls as [|[[a b] c] ls IH]; simpl.
  - split; [|done]. intros _ l p Hl. by apply elem_of_nil in Hl.
  - destruct (_ && _ && _) eqn:Ht.
    + split; [done|]. intros Hno. apply line_test in Ht as [p Hp].
      exfalso. apply (Hno (a, b, c) p); [left | done].
    + rewrite IH. split.
      * intros Hno l p Hl Hh. apply elem_of_cons in Hl as [->|Hl].
        -- by apply (line_test_false _ _ _ _ p) in Ht.
        -- by apply (Hno l p).
      * intros Hno l p Hl. apply Hno. by right.
Qed.

(** The scan stops at the first line that holds three equal marks. *)
Lemma scanLines_first (s : list value) pre l post p :
  (forall l' q, l' ∈ pre -> ~ holds s l' q) ->
  holds s l p ->
  scanLines s (pre ++ l :: post) = Some (Won p l).
Proof.
  intros Hpre Hl. induction pre as [|[[a b] c] pre IH]; simpl.
  - destruct l as [[a b] c].
    assert (truthy (read s a) && bool_decide (read s a = read s b)
            && bool_decide (read s a = read s c) = true) as ->
      by (apply line_test; eauto).
    destruct Hl as [Ha _]. apply read_Mark in Ha. by rewrite Ha.
  - destruct (_ && _ && _) eqn:Ht.
    + apply line_test in Ht as [q Hq]. exfalso.
      apply (Hpre (a, b, c) q); [left | done].
    + apply IH. intros l' q Hl'. apply Hpre. by right.
Qed.

Lemma scanLines_Some (s : list value) ls res :
  scanLines s ls = Some res ->
  exists pre l post p,
    ls = pre ++ l :: post /\
    (forall l' q, l' ∈ pre -> ~ holds s l' q) /\
    holds s l p /\ res = Won p l.
Proof.
  induction ls as [|[[a b] c] ls IH]; simpl; [done|].
  destruct (_ && _ && _) eqn:Ht.
  - intros [= <-]. apply line_test in Ht as [p Hp].
    exists [], (a, b, c), ls, p. repeat split; try apply Hp.
    + intros l' q Hl'. by apply elem_of_nil in Hl'.
    + simpl. destruct Hp as [Ha _]. apply read_Mark in Ha. by rewrite Ha.
  - intros Hres. destruct (IH Hres) as (pre & l & post & p & -> & Hpre & Hl & ->).
    exists ((a, b, c) :: pre), l, post, p. repeat split; try done.
    intros l' q Hl' Hh. apply elem_of_cons in Hl' as [->|Hl'].
    + by apply (line_test_false _ _ _ _ q) in Ht.
    + by apply (Hpre l' q).
Qed.


(** ** The rules evaluator *)

Lemma Won_inj m l m' l' : Won m l = Won m' l' -> m = m' /\ l = l'.
Proof.
  destruct l as [[a b] c], l' as [[a' b'] c']. simpl. intros [= -> -> -> ->].
  done.
Qed.

Lemma Won_not_Draw m l : Won m l <> Draw.
Proof. by destruct l as [[a b] c]. Qed.

Lemma scanLines_some_line (s : list value) :
  is_Some (scanLines s LINES) <-> some_line s.
Proof.
  split.
  - intros [res Hres].
    destruct (scanLines_Some _ _ _ Hres) as (pre & l & post & p & HL & _ & Hl & _).
    exists l, p. split; [|done]. rewrite HL. apply elem_of_app. right. left.
  - intros (l & p & Hin & Hl).
    destruct (scanLines s LINES) eqn:Hs; [eauto|].
    exfalso. by apply (proj1 (scanLines_None s LINES) Hs l p).
Qed.


(** C5. When the lines before [l] in the scan order row0, row1, row2, col0,
    col1, col2, diag0, diag1 are not uniform and [l] holds three marks of
    [m], [calculateWinner] returns the win of [m] on [l], whatever the
    later lines hold: with several completed lines the first in scan order
    is reported. *)
Theorem calculateWinner_first_line (squares : list value) pre l post m :
  LINES = pre ++ l :: post ->
  (forall l' q, l' ∈ pre -> ~ holds squares l' q) ->
  holds squares l m ->
  calculateWinner squares = Some (Won m l).
Proof.
  intros HL Hpre Hl. unfold calculateWinner. rewrite HL.
  by rewrite (scanLines_first squares pre l post m).
Qed.

(** ** The ascending scans of the opponent *)

Lemma calculateWinner_shape (s : list value) res :
  calculateWinner s = Some res ->
  (exists m l, l ∈ LINES /\ holds s l m /\ res = Won m l) \/ res = Draw.
Proof.
  unfold calculateWinner. destruct (scanLines s LINES) as [r|] eqn:Hs.
  - intros [= <-].
    destruct (scanLines_Some _ _ _ Hs) as (pre & l & post & p & HL & _ & Hl & ->).
    left. exists p, l. split; [|done]. rewrite HL. apply elem_of_app. right. left.
  - destruct (every_Boolean s); [|done]. intros [= <-]. by right.
Qed.

Lemma winsAt_spec (b : list value) p i :
  i < length b ->
  winsAt b p i = true <->
  exists l, calculateWinner (<[i:=Mark p]> b) = Some (Won p l).
Proof.
  intros Hi. unfold winsAt, write. rewrite decide_True by done.
  destruct (calculateWinner (<[i:=Mark p]> b)) as [res|] eqn:Hc.
  - rewrite bool_decide_eq_true. split.
    + intros Hw. destruct (calculateWinner_shape _ _ Hc)
        as [(m & l & _ & _ & ->)| ->]; [|done].
      destruct l as [[x y] z]. simpl in Hw. injection Hw as ->. eauto.
    + intros [l [= ->]]. by destruct l as [[x y] z].
  - split; [done | by intros [l ?]].
Qed.

Lemma find_filter_seq (f : nat -> bool) (P : nat -> Prop)
    `{!forall i, Decision (P i)} a n k :
  List.find f (filter P (seq a n)) = Some k ->
  a <= k < a + n /\ P k /\ f k = true /\
  forall j, a <= j < k -> P j -> f j = false.
Proof.
  revert a. induction n as [|n IH]; intros a; simpl; [done|].
  rewrite filter_cons. destruct (decide (P a)) as [HP|HP]; simpl.
  - destruct (f a) eqn:Hf.
    + intros [= <-]. repeat split; try done; lia.
    + intros Hk. destruct (IH _ Hk) as (Hr & HPk & Hfk & Hmin).
      repeat split; try done; try lia.
      intros j Hj HPj. destruct (decide (j = a)) as [->|Hne]; [done|].
      apply Hmin; [lia | done].
  - intros Hk. destruct (IH _ Hk) as (Hr & HPk & Hfk & Hmin).
    repeat split; try done; try lia.
    intros j Hj HPj. destruct (decide (j = a)) as [->|Hne]; [done|].
    apply Hmin; [lia | done].
Qed.

Lemma find_filter_seq_None (f : nat -> bool) (P : nat -> Prop)
    `{!forall i, Decision (P i)} a n :
  List.find f (filter P (seq a n)) = None ->
  forall j, a <= j < a + n -> P j -> f j = false.
Proof.
  intros Hnone j Hj HP. apply (find_none _ _ Hnone).
  apply list_elem_of_In, list_elem_of_filter. split; [done|].
  apply elem_of_seq. lia.
Qed.

Section Tier.
Variable b : list value.
Hypothesis Hwf : wf_board b.

Lemma empty_at_lt i : empty_at b i -> i < 9.
Proof.
  destruct Hwf as [Hlen _]. intros He. rewrite <- Hlen.
  by apply lookup_lt_Some in He.
Qed.

Lemma falsy_empty_at i :
  i < length b -> truthy (read b i) = false <-> empty_at b i.
Proof. destruct Hwf as [_ Hno]. by apply truthy_false_wf. Qed.

(** A tier that finds a cell finds the smallest empty cell that wins. *)
Lemma tier_Some p k :
  List.find (winsAt b p) (emptyIndices b) = Some k ->
  least (wins_by b p) k.
Proof.
  unfold emptyIndices. intros Hk.
  destruct (find_filter_seq _ _ _ _ _ Hk) as (Hr & HP & Hf & Hmin).
  assert (k < length b) as Hlt by lia. split.
  - split; [by apply falsy_empty_at | by apply winsAt_spec].
  - intros j [Hej Hwj]. destruct (decide (k <= j)) as [|Hjk]; [done|].
    assert (j < length b) as Hj by lia.
    assert (winsAt b p j = false) as Hfj.
    { apply Hmin; [lia | by apply falsy_empty_at]. }
    apply winsAt_spec in Hwj; [congruence | done].
Qed.

(** A tier that finds nothing has nothing to find. *)
Lemma tier_None p :
  List.find (winsAt b p) (emptyIndices b) = None ->
  forall i, ~ wins_by b p i.
Proof.
  unfold emptyIndices. intros Hnone i [He Hw].
  assert (i < length b) as Hi by (by apply lookup_lt_Some in He).
  assert (winsAt b p i = false) as Hf.
  { apply (find_filter_seq_None _ _ _ _ Hnone); [lia|].
    by apply falsy_empty_at. }
  apply winsAt_spec in Hw; [congruence | done].
Qed.

Lemma tier_applies p :
  (exists i, wins_by b p i) ->
  exists k, List.find (winsAt b p) (emptyIndices b) = Some k
            /\ least (wins_by b p) k.
Proof.
  intros [i Hi]. destruct (List.find _ _) as [k|] eqn:Hk.
  - exists k. split; [done | by apply tier_Some].
  - exfalso. by apply (tier_None p Hk i).
Qed.
End Tier.

(** ** The fall-back tiers: center, corners, sides *)

Lemma pick_in_range rnd (l : list nat) :
  in_range rnd -> length l <> 0 ->
  exists k, l !! rnd (length l) = Some k /\ k ∈ l.
Proof.
  intros Hr Hl. assert (rnd (length l) < length l) as Hlt by (apply Hr; lia).
  destruct (lookup_lt_is_Some_2 _ _ Hlt) as [k Hk].
  exists k. split; [done | by eapply list_elem_of_lookup_2].
Qed.

Lemma pickRandomMove_empty rnd (b : list value) k :
  pickRandomMove rnd b = Some k -> empty_at b k.
Proof.
  unfold pickRandomMove. case_decide; [done|]. intros Hk.
  apply list_elem_of_lookup_2, list_elem_of_omap in Hk as (x & Hx & Hid).
  apply elem_of_lookup_imap in Hx as (i & v & -> & Hv).
  destruct v; simpl in Hid; try done. by injection Hid as <-.
Qed.

Section Fallback.
Variable b : list value.
Hypothesis Hwf : wf_board b.

Lemma read_Null_empty_at i : read b i = Null <-> empty_at b i.
Proof. destruct Hwf as [_ Hno]. by apply read_Null_wf. Qed.

Lemma candidates_empty (l : list nat) k :
  k ∈ filter (fun i => read b i = Null) l -> k ∈ l /\ empty_at b k.
Proof.
  intros [Hk Hin]%list_elem_of_filter. split; [done|].
  by apply read_Null_empty_at.
Qed.

Lemma candidates_nonempty (l : list nat) k :
  k ∈ l -> empty_at b k ->
  length (filter (fun i => read b i = Null) l) <> 0.
Proof.
  intros Hin He Hlen. apply nil_length_inv in Hlen.
  assert (k ∈ filter (fun i => read b i = Null) l) as Hk.
  { apply list_elem_of_filter. split; [by apply read_Null_empty_at | done]. }
  rewrite Hlen in Hk. by apply elem_of_nil in Hk.
Qed.

(** The nine cells are the center, the four corners and the four sides. *)
Lemma cell_kind i :
  i < 9 -> i = 4 \/ i ∈ [0; 2; 6; 8] \/ i ∈ [1; 3; 5; 7].
Proof.
  intros Hi. rewrite !elem_of_cons.
  do 9 (destruct i as [|i]; [lia|]). lia.
Qed.

(** Whatever the tier, a returned index is an empty cell of the board. *)
Lemma findBestAIMove_Some rnd ai human k :
  findBestAIMove rnd b ai human = Some k -> k < 9 /\ empty_at b k.
Proof.
  intros Hk. cut (empty_at b k).
  { intros He. split; [by apply (empty_at_lt b) | done]. }
  revert Hk. unfold findBestAIMove.
  destruct (List.find (winsAt b ai) _) as [i|] eqn:H1.
  { intros [= ->]. by destruct (tier_Some b Hwf _ _ H1) as [[He _] _]. }
  destruct (List.find (winsAt b human) _) as [i|] eqn:H2.
  { intros [= ->]. by destruct (tier_Some b Hwf _ _ H2) as [[He _] _]. }
  case_decide as H4. { intros [= <-]. by apply read_Null_empty_at. }
  simpl. case_decide as Hc.
  { intros Hk%list_elem_of_lookup_2. by apply candidates_empty in Hk as [_ ?]. }
  case_decide as Hs; [|done].
  intros Hk%list_elem_of_lookup_2. by apply candidates_empty in Hk as [_ ?].
Qed.

(** With an index source in range, no move means no empty cell. *)
Lemma findBestAIMove_None rnd ai human :
  in_range rnd ->
  findBestAIMove rnd b ai human = None -> forall i, ~ empty_at b i.
Proof.
  intros Hr. unfold findBestAIMove.
  destruct (List.find (winsAt b ai) _) as [i|] eqn:H1; [done|].
  destruct (List.find (winsAt b human) _) as [i|] eqn:H2; [done|].
  case_decide as H4; [done|]. simpl. case_decide as Hc.
  { intros Hnone. destruct (pick_in_range rnd _ Hr Hc) as (k & Hk & _).
    congruence. }
  case_decide as Hs.
  { intros Hnone. destruct (pick_in_range rnd _ Hr Hs) as (k & Hk & _).
    congruence. }
  intros _ i He.
  destruct (cell_kind i (empty_at_lt b Hwf i He)) as [->|[Hin|Hin]].
  - by apply H4, read_Null_empty_at.
  - exact (candidates_nonempty _ i Hin He Hc).
  - exact (candidates_nonempty _ i Hin He Hs).
Qed.

(** On a board without an empty cell both choosers return [null]. *)
Lemma findBestAIMove_full rnd ai human :
  (forall i, ~ empty_at b i) -> findBestAIMove rnd b ai human = None.
Proof.
  intros Hfull. destruct (findBestAIMove rnd b ai human) as [k|] eqn:Hk;
    [|done].
  apply findBestAIMove_Some in Hk as [_ He]. by apply Hfull in He.
Qed.
End Fallback.

Lemma pickRandomMove_full rnd (b : list value) :
  (forall i, ~ empty_at b i) -> pickRandomMove rnd b = None.
Proof.
  intros Hfull. destruct (pickRandomMove rnd b) as [k|] eqn:Hk; [|done].
  apply pickRandomMove_empty in Hk. by apply Hfull in Hk.
Qed.

Lemma every_Boolean_false (b : list value) :
  every_Boolean b = false -> exists i, empty_at b i.
Proof.
  unfold every_Boolean, empty_at. induction b as [|v b IH]; simpl; [done|].
  destruct v; simpl.
  - intros [i Hi]%IH. by exists (S i).
  - intros _. by exists 0.
  - intros [i Hi]%IH. by exists (S i).
Qed.

(** While the game is going on, some cell is empty. *)
Lemma ongoing_has_empty (b : list value) :
  calculateWinner b = None -> exists i, empty_at b i.
Proof.
  unfold calculateWinner. destruct (scanLines b LINES); [done|].
  destruct (every_Boolean b) eqn:He; [done|]. intros _.
  by apply every_Boolean_false.
Qed.

(** ** The opponent strategy *)

(** C3. On a board of the data model, if some empty cell filled with the
    opponent's own mark [ai] wins, [findBestAIMove] returns the smallest
    such cell, whatever the other mark could do; otherwise, if some empty
    cell filled with the other mark [human] would win for it,
    [findBestAIMove] returns the smallest such cell. On [O,O,_,_,_,_,_,_,_]
    with own mark O and on [X,X,_,_,_,_,_,_,_] with own mark O against X it
    returns 2. *)
Theorem findBestAIMove_win_then_block rnd (b : list value) (ai human : player) :
  wf_board b ->
  ((exists i, wins_by b ai i) ->
     exists k, findBestAIMove rnd b ai human = Some k
               /\ least (wins_by b ai) k)
  /\ ((forall i, ~ wins_by b ai i) -> (exists i, wins_by b human i) ->
     exists k, findBestAIMove rnd b ai human = Some k
               /\ least (wins_by b human) k)
  /\ findBestAIMove rnd
       [Mark O; Mark O; Null; Null; Null; Null; Null; Null; Null] O human
     = Some 2
  /\ findBestAIMove rnd
       [Mark X; Mark X; Null; Null; Null; Null; Null; Null; Null] O X
     = Some 2.
Proof.
  intros Hwf. split; [|split; [|split]].
  - intros Hex. destruct (tier_applies b Hwf ai Hex) as (k & Hk & Hleast).
    exists k. split; [|done]. unfold findBestAIMove. by rewrite Hk.
  - intros Hno Hex. destruct (tier_applies b Hwf human Hex) as (k & Hk & Hleast).
    exists k. split; [|done]. unfold findBestAIMove.
    destruct (List.find (winsAt b ai) _) as [i|] eqn:H1.
    + destruct (tier_Some b Hwf _ _ H1) as [Hw _]. by apply Hno in Hw.
    + by rewrite Hk.
  - by destruct human.
  - done.
Qed.

(** C7. On a board of the data model, with the random index in range,
    [findBestAIMove] returns [null] only when the board has no empty cell;
    when an empty cell exists it returns an index in 0..8 whose cell is
    empty, and no returned index is ever out of range or occupied. *)
Theorem findBestAIMove_safe rnd (b : list value) (ai human : player) :
  wf_board b -> in_range rnd ->
  (findBestAIMove rnd b ai human = None -> forall i, ~ empty_at b i)
  /\ ((exists i, empty_at b i) ->
      exists k, findBestAIMove rnd b ai human = Some k
                /\ k < 9 /\ empty_at b k)
  /\ (forall k, findBestAIMove rnd b ai human = Some k ->
                k < 9 /\ empty_at b k).
Proof.
  intros Hwf Hr. split; [|split].
  - by apply findBestAIMove_None.
  - intros [i Hi]. destruct (findBestAIMove rnd b ai human) as [k|] eqn:Hk.
    + exists k. split; [done|]. by apply (findBestAIMove_Some b Hwf rnd ai human).
    + exfalso. by apply (findBestAIMove_None b Hwf rnd ai human Hr Hk i).
  - intros k. by apply findBestAIMove_Some.
Qed.

(** C8. On a board of the data model where the win tier or the block tier
    applies, [findBestAIMove] returns the same index under any two random
    sources; and if two random sources give different results, then
    neither of these tiers applies and the center is taken, so the choice
    was made in the corner tier or the side tier. *)
Theorem findBestAIMove_randomness_confined rnd1 rnd2 (b : list value)
    (ai human : player) :
  wf_board b ->
  ((exists i, wins_by b ai i) \/ (exists i, wins_by b human i) ->
     findBestAIMove rnd1 b ai human = findBestAIMove rnd2 b ai human)
  /\ (findBestAIMove rnd1 b ai human <> findBestAIMove rnd2 b ai human ->
      (forall i, ~ wins_by b ai i) /\ (forall i, ~ wins_by b human i)
      /\ ~ empty_at b 4
      /\ ((exists c, c ∈ [0; 2; 6; 8] /\ empty_at b c)
          \/ (exists s, s ∈ [1; 3; 5; 7] /\ empty_at b s))).
Proof.
  intros Hwf. split.
  - intros Hex. unfold findBestAIMove.
    destruct (List.find (winsAt b ai) _) as [i|] eqn:H1; [done|].
    destruct (List.find (winsAt b human) _) as [i|] eqn:H2; [done|].
    exfalso. destruct Hex as [[i Hi]|[i Hi]].
    + by apply (tier_None b Hwf ai H1 i).
    + by apply (tier_None b Hwf human H2 i).
  - unfold findBestAIMove.
    destruct (List.find (winsAt b ai) _) as [i|] eqn:H1; [done|].
    destruct (List.find (winsAt b human) _) as [i|] eqn:H2; [done|].
    case_decide as H4; [done|]. simpl. intros Hdiff.
    split; [by apply tier_None|]. split; [by apply tier_None|].
    split; [by rewrite <- read_Null_empty_at|].
    destruct (filter _ [0; 2; 6; 8]) as [|c cs] eqn:Hc.
    + destruct (filter _ [1; 3; 5; 7]) as [|s ss] eqn:Hs; [done|].
      right. exists s. apply (candidates_empty b Hwf). rewrite Hs. left.
    + left. exists c. apply (candidates_empty b Hwf). rewrite Hc. left.
Qed.

(** C10. On a board of the data model, with the random index in range:
    when an empty cell exists [findBestAIMove] returns a move, on a board
    without one both [findBestAIMove] and [pickRandomMove] return [null],
    so [findBestAIMove(..) ?? pickRandomMove(..)] is always the result of
    [findBestAIMove]; while the game is going on (the guard of the CPU
    effect) [findBestAIMove] returns a move, so the right operand of [??]
    is not evaluated; and a move the CPU timer applies is the one
    [findBestAIMove] chose. *)
Theorem pickRandomMove_never_decides rnd rnd' (st : session) :
  wf_board (board st) -> in_range rnd ->
  ((exists i, empty_at (board st) i) ->
     is_Some (findBestAIMove rnd (board st) O X))
  /\ ((forall i, ~ empty_at (board st) i) ->
      findBestAIMove rnd (board st) O X = None
      /\ pickRandomMove rnd' (board st) = None)
  /\ orElse (findBestAIMove rnd (board st) O X)
            (pickRandomMove rnd' (board st))
     = findBestAIMove rnd (board st) O X
  /\ (calculateWinner (board st) = None ->
      is_Some (findBestAIMove rnd (board st) O X))
  /\ (forall st', cpuMove rnd rnd' st = Some st' ->
      exists k, findBestAIMove rnd (board st) O X = Some k
                /\ board st' = <[k:=Mark O]> (board st)).
Proof.
  intros Hwf Hr.
  assert ((exists i, empty_at (board st) i) ->
          is_Some (findBestAIMove rnd (board st) O X)) as Hsome.
  { intros [i Hi].
    destruct (findBestAIMove rnd (board st) O X) eqn:Hk; [eauto|].
    exfalso. by apply (findBestAIMove_None _ Hwf rnd O X Hr Hk i). }
  assert (orElse (findBestAIMove rnd (board st) O X)
                 (pickRandomMove rnd' (board st))
          = findBestAIMove rnd (board st) O X) as Helse.
  { destruct (findBestAIMove rnd (board st) O X) as [k|] eqn:Hk; [done|].
    simpl. apply pickRandomMove_full.
    by apply (findBestAIMove_None _ Hwf rnd O X). }
  split; [|split; [|split; [|split]]].
  - done.
  - intros Hfull. split.
    + by apply findBestAIMove_full.
    + by apply pickRandomMove_full.
  - done.
  - intros Hgo. by apply Hsome, ongoing_has_empty.
  - intros st'. unfold cpuMove. rewrite Helse.
    destruct (_ && _ && _); [|done].
    destruct (findBestAIMove rnd (board st) O X) as [k|] eqn:Hk; [|done].
    case_decide; [|done]. intros [= <-]. exists k. split; [done|]. simpl.
    unfold write. rewrite decide_True; [done|].
    destruct (findBestAIMove_Some _ Hwf _ _ _ _ Hk) as [_ He].
    by apply lookup_lt_Some in He.
Qed.

(** ** The session: handlers and the score effect *)

Lemma board_scoreEffect st : board (scoreEffect st) = board st.
Proof.
  unfold scoreEffect. destruct (calculateWinner (board st)) as [res|]; [|done].
  destruct (winner res); [| |done]; by destruct (isDraw res).
Qed.

Lemma scores_scoreEffect_Won st m l :
  calculateWinner (board st) = Some (Won m l) ->
  scores (scoreEffect st) = addWin m (scores st).
Proof.
  intros Hc. unfold scoreEffect. rewrite Hc. by destruct l as [[a b] c].
Qed.

Lemma scores_scoreEffect_Draw st :
  calculateWinner (board st) = Some Draw ->
  scores (scoreEffect st) = addDraw (scores st).
Proof. intros Hc. unfold scoreEffect. by rewrite Hc. Qed.

Lemma scores_scoreEffect_None st :
  calculateWinner (board st) = None ->
  scores (scoreEffect st) = scores st.
Proof. intros Hc. unfold scoreEffect. by rewrite Hc. Qed.

Lemma scores_handleClick i st st' :
  handleClick i st = Some st' ->
  scores st' = scores st /\ calculateWinner (board st) = None.
Proof.
  unfold handleClick.
  destruct (calculateWinner (board st)) as [res|] eqn:Hc.
  { rewrite bool_decide_eq_true_2 by eauto. done. }
  destruct (_ || _); [done|]. destruct (_ && _); [done|].
  by intros [= <-].
Qed.

Lemma scores_cpuMove rnd rnd' st st' :
  cpuMove rnd rnd' st = Some st' ->
  scores st' = scores st /\ calculateWinner (board st) = None.
Proof.
  unfold cpuMove.
  destruct (calculateWinner (board st)) as [res|] eqn:Hc.
  { rewrite (bool_decide_eq_true_2 (is_Some (Some res))) by eauto.
    by rewrite andb_false_r. }
  destruct (_ && _ && _); [|done]. destruct (orElse _ _); [|done].
  case_decide; [|done]. by intros [= <-].
Qed.

(** One event changes the scores only through the score effect, which runs
    on the board the event installed. *)
Lemma step_cases st a :
  a <> ResetScores ->
  step st a = st
  \/ (calculateWinner (board st) = None
      /\ exists st', scores st' = scores st
                     /\ board st' = board (step st a)
                     /\ step st a = scoreEffect st')
  \/ (calculateWinner (board (step st a)) = None
      /\ scores (step st a) = scores st).
Proof.
  intros Ha. destruct a as [i|rnd rnd'| | |m]; simpl; try done.
  - destruct (handleClick i st) as [st'|] eqn:Hh; [|by left].
    destruct (scores_handleClick _ _ _ Hh) as [Hs Hc].
    right; left. split; [done|]. exists st'.
    by rewrite board_scoreEffect.
  - destruct (cpuMove rnd rnd' st) as [st'|] eqn:Hh; [|by left].
    destruct (scores_cpuMove _ _ _ _ Hh) as [Hs Hc].
    right; left. split; [done|]. exists st'.
    by rewrite board_scoreEffect.
  - right; right. done.
  - right; right. done.
Qed.

(** C2 as stated fails: a click whose only defect is an index outside
    0..8 is not ignored. On the initial state [handleClick(9)] passes both
    guards ([board[9]] is [undefined], hence falsy), writes ['X'] at index 9
    of the copy and flips the turn. *)
Lemma handleClick_out_of_range_not_ignored :
  ~ (forall st i,
       occupied st i \/ cpu_turn st \/ terminal st \/ ~ i < 9 ->
       step st (Click i) = st).
Proof.
  intros Hclaim.
  assert (step initial (Click 9) = initial) as Hsame.
  { apply Hclaim. right; right; right. lia. }
  vm_compute in Hsame. discriminate Hsame.
Qed.

(** C2, amended. For every session state and every index, a click on an
    occupied cell, a click while it is the computer's turn in mode [cpu],
    and a click once the game is won or drawn call no setter, so the whole
    state (board, turn, scores, highlight, mode) stays as it is. *)
Theorem handleClick_rejected_is_noop (st : session) (i : nat) :
  occupied st i \/ cpu_turn st \/ terminal st ->
  handleClick i st = None /\ step st (Click i) = st.
Proof.
  intros Hbad. assert (handleClick i st = None) as Hnone.
  { unfold handleClick. destruct Hbad as [[p Hp]|[[Hm Hx]|Hterm]].
    - apply read_Mark in Hp. rewrite Hp. simpl. by rewrite orb_true_r.
    - destruct (_ || _); [done|]. rewrite Hx.
      by rewrite bool_decide_eq_true_2.
    - by rewrite bool_decide_eq_true_2. }
  split; [done|]. simpl. by rewrite Hnone.
Qed.

(** C4. For every state and every event other than [resetScores]: a step
    from a board with the game going on to a board won by [m] adds one to
    the counter of [m] and leaves the other two; a step from a board with
    the game going on to a drawn board adds one to [Draws] and leaves the
    other two; on a board already won or drawn no event changes a counter
    (the same terminal board is not counted again); and a step that ends on
    a board with the game going on changes no counter. *)
Theorem scores_change_once_per_terminal_transition (st : session) (a : action) :
  a <> ResetScores ->
  (forall m l,
      calculateWinner (board st) = None ->
      calculateWinner (board (step st a)) = Some (Won m l) ->
      forall c, count c (scores (step st a))
                = count c (scores st)
                  + (if decide (c = counter_of m) then 1 else 0))
  /\ (calculateWinner (board st) = None ->
      calculateWinner (board (step st a)) = Some Draw ->
      forall c, count c (scores (step st a))
                = count c (scores st)
                  + (if decide (c = CDraws) then 1 else 0))
  /\ (terminal st -> scores (step st a) = scores st)
  /\ (calculateWinner (board (step st a)) = None ->
      scores (step st a) = scores st).
Proof.
  intros Ha.
  destruct (step_cases st a Ha)
    as [Hsame|[(Hpre & st' & Hs & Hb & Hstep)|[Hpost Hs]]].
  - rewrite Hsame. split; [|split; [|split]]; try done.
    + intros m l Hpre Hpost. congruence.
    + intros Hpre Hpost. congruence.
  - split; [|split; [|split]].
    + intros m l _ Hpost c. rewrite <- Hb in Hpost.
      rewrite Hstep, (scores_scoreEffect_Won _ _ _ Hpost), Hs.
      destruct m, c; simpl; lia.
    + intros _ Hpost c. rewrite <- Hb in Hpost.
      rewrite Hstep, (scores_scoreEffect_Draw _ Hpost), Hs.
      destruct c; simpl; lia.
    + intros [res Hres]. congruence.
    + intros Hpost. rewrite <- Hb in Hpost.
      by rewrite Hstep, (scores_scoreEffect_None _ Hpost).
  - split; [|split; [|split]]; try done.
    + intros m l _ Hw. congruence.
    + intros _ Hd. congruence.
Qed.

(** The scores after one event are the scores before it plus the credit
    of the transition it made. *)
Lemma scores_step (st : session) (a : action) :
  scores (step st a)
  = match a with
    | ResetScores => mkScores 0 0 0
    | _ => credit (calculateWinner (board st))
                  (calculateWinner (board (step st a))) (scores st)
    end.
Proof.
  assert (a = ResetScores \/ a <> ResetScores) as [->|Ha]
    by (destruct a; (by left) || (by right)).
  { done. }
  transitivity (credit (calculateWinner (board st))
                       (calculateWinner (board (step st a))) (scores st));
    [|by destruct a].
  destruct (step_cases st a Ha)
    as [Hsame|[(Hpre & st' & Hs & Hb & Hstep)|[Hpost Hs]]].
  - rewrite Hsame. by destruct (calculateWinner (board st)).
  - rewrite Hpre, <- Hb, Hstep. unfold scoreEffect, credit.
    destruct (calculateWinner (board st')) as [res|] eqn:Hc; [|done].
    destruct (calculateWinner_shape _ _ Hc) as [(m & l & _ & _ & ->)| ->].
    + destruct l as [[x y] z]. simpl. by rewrite Hs.
    + simpl. by rewrite Hs.
  - rewrite Hpost, Hs. by destruct (calculateWinner (board st)).
Qed.

(** Along every sequence of events, the scoreboard is the count of the
    terminal transitions made since the last [resetScores]. *)
Lemma scores_run (acts : list action) (st : session) :
  scores (run st acts) = expected_scores st (scores st) acts.
Proof.
  revert st. induction acts as [|a acts IH]; intros st; [done|].
  change (run st (a :: acts)) with (run (step st a) acts).
  rewrite IH. simpl. by rewrite scores_step.
Qed.

(** C6. From every state, a mode button with mode [m] leaves an empty
    board, X to move, the game going on and no highlight, sets the mode to
    [m], and leaves the three counters as they were. *)
Theorem selectMode_resets_board_keeps_scores (st : session) (m : game_mode) :
  let st' := step st (SelectMode m) in
  board st' = replicate 9 Null
  /\ xIsNext st' = true
  /\ calculateWinner (board st') = None
  /\ highlight st' = []
  /\ mode st' = m
  /\ scores st' = scores st.
Proof. by destruct st. Qed.

(** C9. From every state, [resetBoard()] twice in a row gives the same
    state as once: for the handler alone and for the handler followed by
    the render it causes. *)
Theorem resetBoard_idempotent (st : session) :
  resetBoard (resetBoard st) = resetBoard st
  /\ step (step st ResetBoard) ResetBoard = step st ResetBoard.
Proof. by destruct st. Qed.

(** ** The theorems at concrete inputs *)


Lemma wf_both_can_win : wf_board both_can_win.
Proof. split; [done | repeat constructor; done]. Qed.

Lemma wf_x_threat : wf_board x_threat.
Proof. split; [done | repeat constructor; done]. Qed.

Lemma wf_center_taken : wf_board center_taken.
Proof. split; [done | repeat constructor; done]. Qed.

Lemma in_range_first_candidate : in_range first_candidate.
Proof. intros n Hn. exact Hn. Qed.


Lemma calculateWinner_first_line_witness :
  LINES = [(0,1,2); (3,4,5); (6,7,8)] ++ (0,3,6) :: [(1,4,7); (2,5,8); (0,4,8); (2,4,6)]
  /\ holds two_lines (0,3,6) X
  /\ holds two_lines (0,4,8) X
  /\ calculateWinner two_lines = Some (Won X (0,3,6)).
Proof.
  split; [reflexivity|]. split; [done|]. split; [done|].
  apply (calculateWinner_first_line two_lines
           [(0,1,2); (3,4,5); (6,7,8)] (0,3,6)
           [(1,4,7); (2,5,8); (0,4,8); (2,4,6)] X).
  - reflexivity.
  - intros l' q Hin. rewrite !elem_of_cons in Hin.
    destruct Hin as [->|[->|[->|Hnil]]];
      [| | | by apply elem_of_nil in Hnil].
    all: intros (H1 & H2 & H3); vm_compute in H1, H2, H3; congruence.
  - done.
Defined.

Lemma findBestAIMove_win_then_block_witness :
  wf_board both_can_win
  /\ wins_by both_can_win X 5
  /\ exists k, findBestAIMove first_candidate both_can_win O X = Some k
               /\ least (wins_by both_can_win O) k.
Proof.
  split; [exact wf_both_can_win|]. split.
  - split; [done|]. by exists (3,4,5).
  - apply (proj1 (findBestAIMove_win_then_block
                    first_candidate both_can_win O X wf_both_can_win)).
    exists 2. split; [done|]. by exists (0,1,2).
Defined.

Lemma findBestAIMove_safe_witness :
  wf_board center_taken /\ in_range first_candidate
  /\ exists k, findBestAIMove first_candidate center_taken O X = Some k
               /\ k < 9 /\ empty_at center_taken k.
Proof.
  split; [exact wf_center_taken|]. split; [exact in_range_first_candidate|].
  apply (proj1 (proj2 (findBestAIMove_safe first_candidate center_taken O X
                         wf_center_taken in_range_first_candidate))).
  by exists 0.
Defined.

Lemma findBestAIMove_randomness_confined_witness :
  wf_board x_threat
  /\ findBestAIMove first_candidate x_threat O X
     = findBestAIMove second_candidate x_threat O X.
Proof.
  split; [exact wf_x_threat|].
  apply (proj1 (findBestAIMove_randomness_confined
                  first_candidate second_candidate x_threat O X wf_x_threat)).
  right. exists 2. split; [done|]. by exists (0,1,2).
Defined.

Lemma wf_cpu_to_move : wf_board (board cpu_to_move).
Proof. split; [done | repeat constructor; done]. Qed.

Lemma pickRandomMove_never_decides_witness :
  wf_board (board cpu_to_move) /\ in_range first_candidate
  /\ is_Some (findBestAIMove first_candidate (board cpu_to_move) O X)
  /\ orElse (findBestAIMove first_candidate (board cpu_to_move) O X)
            (pickRandomMove second_candidate (board cpu_to_move))
     = findBestAIMove first_candidate (board cpu_to_move) O X.
Proof.
  split; [exact wf_cpu_to_move|]. split; [exact in_range_first_candidate|].
  destruct (pickRandomMove_never_decides first_candidate second_candidate
              cpu_to_move wf_cpu_to_move in_range_first_candidate)
    as (_ & _ & Helse & Hguard & _).
  split; [by apply Hguard | exact Helse].
Defined.

Lemma handleClick_rejected_is_noop_witness :
  occupied before_win 0
  /\ handleClick 0 before_win = None
  /\ step before_win (Click 0) = before_win.
Proof.
  assert (occupied before_win 0) as Hocc by (by exists X).
  split; [exact Hocc|].
  apply (handleClick_rejected_is_noop before_win 0). by left.
Defined.

Lemma scores_change_once_per_terminal_transition_witness :
  Click 2 <> ResetScores
  /\ calculateWinner (board before_win) = None
  /\ calculateWinner (board (step before_win (Click 2))) = Some (Won X (0,1,2))
  /\ forall c, count c (scores (step before_win (Click 2)))
               = count c (scores before_win)
                 + (if decide (c = counter_of X) then 1 else 0).
Proof.
  assert (Click 2 <> ResetScores) as Hne by done.
  split; [exact Hne|]. split; [reflexivity|]. split; [reflexivity|].
  destruct (scores_change_once_per_terminal_transition
              before_win (Click 2) Hne) as (Hwon & _).
  apply (Hwon X (0,1,2)); reflexivity.
Defined.

(** ** Runs of the session on concrete inputs *)

(** X plays 0, O plays 4, X plays 1, O plays 7, X plays 2: X wins on row 0,
    the row is highlighted and X's counter is 1. *)
Example run_x_wins :
  let st := run initial [Click 0; Click 4; Click 1; Click 7; Click 2] in
  calculateWinner (board st) = Some (Won X (0,1,2))
  /\ highlight st = [0; 1; 2]
  /\ scores st = mkScores 1 0 0.
Proof. done. Qed.

(** X:0, O:1, X:2, O:4, X:6, O:8, X:5, O:3, X:7 is a draw, counted once;
    further clicks on the drawn board change nothing. *)
Example run_draw :
  let st := run initial [Click 0; Click 1; Click 2; Click 4; Click 6;
                         Click 8; Click 5; Click 3; Click 7] in
  calculateWinner (board st) = Some Draw
  /\ scores st = mkScores 0 0 1
  /\ run st [Click 3; Click 9; ResetBoard; Click 4] 
     = step (step st ResetBoard) (Click 4)
  /\ scores (run st [Click 3; Click 9; ResetBoard; Click 4]) = mkScores 0 0 1.
Proof. done. Qed.

(** In mode [cpu] the computer answers X's corner with the center. *)
Example run_cpu_answers :
  board (step cpu_to_move (CpuTimer first_candidate second_candidate))
  = [Mark X; Null; Null; Null; Mark O; Null; Null; Null; Null].
Proof. done. Qed.

(** What the click at index 9 does to the initial state. *)
Example click_out_of_range :
  step initial (Click 9)
  = mkSession (replicate 9 Null ++ [Mark X]) false pvp (mkScores 0 0 0) [].
Proof. done. Qed.

(** With both marks one move from a win, the own win is taken. *)
Example findBestAIMove_prefers_win :
  findBestAIMove first_candidate both_can_win O X = Some 2.
Proof. done. Qed.

(** In the corner tier the random source decides. *)
Example findBestAIMove_corner_random :
  findBestAIMove first_candidate center_taken O X = Some 0
  /\ findBestAIMove second_candidate center_taken O X = Some 2.
Proof. done. Qed.

(** ** Writes, accepted moves and what they keep *)

Lemma lookup_write_eq (b : list value) i v : write b i v !! i = Some v.
Proof.
  unfold write. case_decide as Hi.
  - by apply list_lookup_insert_eq.
  - rewrite lookup_app_r by lia. rewrite lookup_app_r;
      rewrite length_replicate; [|lia].
    by replace (i - length b - (i - length b)) with 0 by lia.
Qed.

(** Away from the written index, a write neither makes nor removes a mark. *)
Lemma lookup_write_Mark_ne (b : list value) i j v m :
  j <> i -> write b i v !! j = Some (Mark m) <-> b !! j = Some (Mark m).
Proof.
  intros Hne. unfold write. case_decide as Hi.
  - by rewrite list_lookup_insert_ne.
  - destruct (decide (j < length b)) as [Hj|Hj].
    + by rewrite lookup_app_l.
    + rewrite lookup_app_r by lia. rewrite (lookup_ge_None_2 b j) by lia.
      split; [|done]. intros Hl.
      destruct (decide (j - length b < i - length b)) as [Hlt|Hge].
      * rewrite lookup_app_l in Hl by (by rewrite length_replicate).
        apply lookup_replicate in Hl as [? _]. done.
      * rewrite lookup_app_r in Hl by (rewrite length_replicate; lia).
        rewrite length_replicate in Hl.
        destruct (j - length b - (i - length b)) as [|n] eqn:Hn; [lia|].
        done.
Qed.

(** What an accepted click is: the game was going on, the cell read falsy,
    it was not the computer's turn, and the setters did this. *)
Lemma handleClick_Some i st st' :
  handleClick i st = Some st' ->
  calculateWinner (board st) = None
  /\ truthy (read (board st) i) = false
  /\ ~ cpu_turn st
  /\ st' = mkSession (write (board st) i (Mark (mover st)))
                     (negb (xIsNext st)) (mode st) (scores st) (highlight st).
Proof.
  unfold handleClick, cpu_turn, mover.
  destruct (calculateWinner (board st)) as [res|] eqn:Hc.
  { rewrite bool_decide_eq_true_2 by eauto. done. }
  rewrite bool_decide_eq_false_2 by (by intros [? ?]). simpl.
  destruct (truthy _) eqn:Ht; [done|].
  destruct (bool_decide (mode st = cpu) && negb (xIsNext st)) eqn:Hg; [done|].
  intros [= <-]. repeat split; try done. intros [Hm Hx].
  rewrite Hx, bool_decide_eq_true_2 in Hg by done. done.
Qed.

(** What a move of the CPU timer is. *)
Lemma cpuMove_Some rnd rnd' st st' :
  cpuMove rnd rnd' st = Some st' ->
  calculateWinner (board st) = None
  /\ cpu_turn st
  /\ exists move,
       orElse (findBestAIMove rnd (board st) O X)
              (pickRandomMove rnd' (board st)) = Some move
       /\ read (board st) move = Null
       /\ st' = mkSession (write (board st) move (Mark O)) true
                          (mode st) (scores st) (highlight st).
Proof.
  unfold cpuMove, cpu_turn.
  destruct (bool_decide (mode st = cpu)) eqn:Hm; [|done].
  destruct (calculateWinner (board st)) as [res|] eqn:Hc.
  { rewrite (bool_decide_eq_true_2 (is_Some (Some res))) by eauto. done. }
  rewrite bool_decide_eq_false_2 by (by intros [? ?]). simpl.
  destruct (xIsNext st) eqn:Hx; [done|]. simpl.
  destruct (orElse _ _) as [move|] eqn:Hmove; [|done].
  destruct (decide (read (board st) move = Null)) as [Hnull|]; [|done].
  intros [= <-].
  apply bool_decide_eq_true in Hm. repeat split; try done. by exists move.
Qed.

Lemma xIsNext_scoreEffect st : xIsNext (scoreEffect st) = xIsNext st.
Proof.
  unfold scoreEffect. destruct (calculateWinner (board st)) as [res|]; [|done].
  destruct (winner res); [| |done]; by destruct (isDraw res).
Qed.

Lemma mode_scoreEffect st : mode (scoreEffect st) = mode st.
Proof.
  unfold scoreEffect. destruct (calculateWinner (board st)) as [res|]; [|done].
  destruct (winner res); [| |done]; by destruct (isDraw res).
Qed.

(** A move event that changes the state writes the mover's mark at a cell
    that read falsy, while the game was going on. *)
Lemma move_cases st a :
  is_move a ->
  step st a = st
  \/ (calculateWinner (board st) = None
      /\ exists k,
           truthy (read (board st) k) = false
           /\ (forall i, a = Click i -> k = i)
           /\ (forall rnd rnd', a = CpuTimer rnd rnd' ->
                 cpu_turn st /\ read (board st) k = Null)
           /\ board (step st a) = write (board st) k (Mark (mover st))
           /\ xIsNext (step st a) = negb (xIsNext st)
           /\ mode (step st a) = mode st).
Proof.
  destruct a as [i|rnd rnd'| | |m]; simpl; try done; intros _.
  - destruct (handleClick i st) as [st'|] eqn:Hh; [|by left].
    destruct (handleClick_Some _ _ _ Hh) as (Hc & Ht & _ & ->).
    right. split; [done|]. exists i.
    rewrite board_scoreEffect, xIsNext_scoreEffect, mode_scoreEffect.
    repeat split; try done. by intros ? [= ->].
  - destruct (cpuMove rnd rnd' st) as [st'|] eqn:Hh; [|by left].
    destruct (cpuMove_Some _ _ _ _ Hh)
      as (Hc & [Hm Hx] & move & _ & Hnull & ->).
    right. split; [done|]. exists move.
    rewrite board_scoreEffect, xIsNext_scoreEffect, mode_scoreEffect.
    repeat split; try done.
    + by rewrite Hnull.
    + unfold mover. by rewrite Hx.
    + by rewrite Hx.
Qed.

(** ** Properties of moves *)

Lemma calculateWinner_Won s m l :
  calculateWinner s = Some (Won m l) -> l ∈ LINES /\ holds s l m.
Proof.
  intros Hc. destruct (calculateWinner_shape _ _ Hc)
    as [(m' & l' & Hin & Hl & Heq)|Heq].
  - by apply Won_inj in Heq as [-> ->].
  - by apply Won_not_Draw in Heq.
Qed.

Lemma holds_terminal s l m :
  l ∈ LINES -> holds s l m -> is_Some (calculateWinner s).
Proof.
  intros Hin Hl.
  assert (is_Some (scanLines s LINES)) as [res Hres].
  { apply scanLines_some_line. by exists l, m. }
  unfold calculateWinner. rewrite Hres. eauto.
Qed.

(** X1. No move overwrites or removes a mark: across a click or a firing
    of the CPU timer, every cell that held a mark holds the same mark
    afterwards, whatever the index clicked and whatever the state. *)
Theorem moves_keep_marks (st : session) (a : action) (j : nat) (p : player) :
  is_move a ->
  board st !! j = Some (Mark p) ->
  board (step st a) !! j = Some (Mark p).
Proof.
  intros Ha Hj. destruct (move_cases st a Ha)
    as [->|(_ & k & Hk & _ & _ & -> & _)]; [done|].
  apply lookup_write_Mark_ne; [|done].
  intros ->. apply read_Mark in Hj. by rewrite Hj in Hk.
Qed.

(** X2. A win belongs to the player who just moved: when a click or the
    CPU timer takes a board with the game going on to a board won by [m] on
    line [l], then [m] is the player whose turn it was, and [l] passes
    through a cell that did not hold [m]'s mark before the move. *)
Theorem win_belongs_to_mover (st : session) (a : action) m l :
  is_move a ->
  calculateWinner (board st) = None ->
  calculateWinner (board (step st a)) = Some (Won m l) ->
  m = mover st
  /\ exists k, on_line k l
               /\ board st !! k <> Some (Mark m)
               /\ board (step st a) !! k = Some (Mark m).
Proof.
  intros Ha Hpre Hpost.
  destruct (move_cases st a Ha) as [Hsame|(_ & k & Hk & _ & _ & Hb & _)].
  { rewrite Hsame in Hpost. congruence. }
  destruct (calculateWinner_Won _ _ _ Hpost) as [Hin Hl].
  assert (board st !! k <> Some (Mark m)) as Hfresh.
  { intros Hm. apply read_Mark in Hm. by rewrite Hm in Hk. }
  assert (on_line k l) as Hon.
  { destruct l as [[x y] z]. simpl.
    destruct (decide (k = x)) as [|Hx]; [by left|].
    destruct (decide (k = y)) as [|Hy]; [by right; left|].
    destruct (decide (k = z)) as [|Hz]; [by right; right|].
    exfalso. rewrite Hb in Hl. destruct Hl as (H1 & H2 & H3).
    apply lookup_write_Mark_ne in H1, H2, H3; try done.
    assert (is_Some (calculateWinner (board st))) as [res Hres]
      by (by apply (holds_terminal _ (x, y, z) m)).
    congruence. }
  assert (board (step st a) !! k = Some (Mark m)) as Hkm.
  { destruct l as [[x y] z]. destruct Hl as (H1 & H2 & H3).
    by destruct Hon as [->|[->| ->]]. }
  split; [|by exists k].
  rewrite Hb, lookup_write_eq in Hkm. by injection Hkm.
Qed.

(** ** Counting marks *)

Lemma count_insert {A} (P : A -> Prop) `{!forall x, Decision (P x)}
    (l : list A) i x y :
  l !! i = Some y ->
  length (filter P (<[i:=x]> l)) + (if decide (P y) then 1 else 0)
  = length (filter P l) + (if decide (P x) then 1 else 0).
Proof.
  intros Hy. assert (i < length l) as Hi by (by apply lookup_lt_Some in Hy).
  rewrite (insert_take_drop l i x Hi).
  rewrite <- (take_drop_middle l i y Hy) at 3.
  rewrite !filter_app, !filter_cons, !length_app.
  destruct (decide (P x)), (decide (P y)); simpl; lia.
Qed.

Lemma count_replicate_Undefined (P : value -> Prop)
    `{!forall x, Decision (P x)} n :
  ~ P Undefined -> filter P (replicate n Undefined) = [].
Proof.
  intros HP. induction n as [|n IH]; simpl; [done|].
  by rewrite filter_cons, decide_False.
Qed.

(** A write of a mark at a cell that read falsy adds one mark of that
    player and none of the other. *)
Lemma marks_write (b : list value) i p q :
  truthy (read b i) = false ->
  marks p (write b i (Mark q))
  = marks p b + (if decide (p = q) then 1 else 0).
Proof.
  intros Hf. unfold marks, write. case_decide as Hi.
  - destruct (lookup_lt_is_Some_2 b i Hi) as [y Hy].
    pose proof (count_insert (fun v => v = Mark p) b i (Mark q) y Hy) as Hc.
    assert (y <> Mark p) as Hny.
    { intros ->. unfold read in Hf. by rewrite Hy in Hf. }
    rewrite (decide_False (P := y = Mark p)) in Hc by done.
    destruct (decide (p = q)) as [->|Hne].
    + rewrite decide_True in Hc by done. lia.
    + rewrite decide_False in Hc by congruence. lia.
  - rewrite !filter_app, !length_app.
    rewrite count_replicate_Undefined by done.
    rewrite filter_cons, filter_nil. simpl.
    destruct (decide (p = q)) as [->|Hne].
    + rewrite decide_True by done. simpl. lia.
    + rewrite decide_False by congruence. simpl. lia.
Qed.

(** A property that holds initially and is kept by every event holds after
    every sequence of events. *)
Lemma run_invariant (I : session -> Prop) :
  I initial -> (forall st a, I st -> I (step st a)) ->
  forall acts, I (run initial acts).
Proof.
  intros Hinit Hstep acts. unfold run. generalize initial Hinit.
  induction acts as [|a acts IH]; intros st Hst; simpl; [done|].
  apply IH. by apply Hstep.
Qed.

Lemma parity_step st a :
  marks X (board st) = marks O (board st) + (if xIsNext st then 0 else 1) ->
  marks X (board (step st a))
  = marks O (board (step st a)) + (if xIsNext (step st a) then 0 else 1).
Proof.
  intros IH. destruct a as [i|rnd rnd'| | |m]; try done.
  - destruct (move_cases st (Click i) I)
      as [->|(_ & k & Hk & _ & _ & -> & -> & _)]; [done|].
    rewrite !marks_write by done. unfold mover.
    destruct (xIsNext st); simpl in *; lia.
  - destruct (move_cases st (CpuTimer rnd rnd') I)
      as [->|(_ & k & Hk & _ & _ & -> & -> & _)]; [done|].
    rewrite !marks_write by done. unfold mover.
    destruct (xIsNext st); simpl in *; lia.
Qed.


(** ** The highlight *)

Lemma highlight_scoreEffect st :
  highlight st = [] -> highlight (scoreEffect st) = winning_line (board st).
Proof.
  intros Hh. unfold scoreEffect, winning_line.
  destruct (calculateWinner (board st)) as [res|] eqn:Hc; [|done].
  destruct (calculateWinner_shape _ _ Hc) as [(m & l & _ & _ & ->)| ->].
  - by destruct l as [[x y] z].
  - done.
Qed.

Lemma highlight_step st a :
  highlight st = winning_line (board st) ->
  highlight (step st a) = winning_line (board (step st a)).
Proof.
  intros Hinv. destruct a as [i|rnd rnd'| | |m]; simpl.
  - destruct (handleClick i st) as [st'|] eqn:Hh; [|done].
    destruct (handleClick_Some _ _ _ Hh) as (Hc & _ & _ & ->).
    rewrite board_scoreEffect. apply highlight_scoreEffect. simpl.
    rewrite Hinv. unfold winning_line. by rewrite Hc.
  - destruct (cpuMove rnd rnd' st) as [st'|] eqn:Hh; [|done].
    destruct (cpuMove_Some _ _ _ _ Hh) as (Hc & _ & move & _ & _ & ->).
    rewrite board_scoreEffect. apply highlight_scoreEffect. simpl.
    rewrite Hinv. unfold winning_line. by rewrite Hc.
  - done.
  - done.
  - done.
Qed.

(** X4. After every sequence of events from the initial state the
    highlight is the winning line when the board is won and empty
    otherwise (also on a drawn board, where the effect does not touch it);
    every highlighted cell holds the winner's mark. *)
Theorem highlight_follows_outcome (acts : list action) :
  let st := run initial acts in
  highlight st = winning_line (board st)
  /\ (forall m l, calculateWinner (board st) = Some (Won m l) ->
        highlight st = line (Won m l)
        /\ forall i, i ∈ highlight st -> board st !! i = Some (Mark m))
  /\ ((forall m l, calculateWinner (board st) <> Some (Won m l)) ->
        highlight st = []).
Proof.
  assert (highlight (run initial acts)
          = winning_line (board (run initial acts))) as Hinv.
  { apply (run_invariant (fun st => highlight st = winning_line (board st)));
      [done|]. intros st a. apply highlight_step. }
  simpl. split; [done|]. rewrite Hinv. unfold winning_line. split.
  - intros m l Hc. rewrite Hc. split; [done|].
    destruct (calculateWinner_Won _ _ _ Hc) as [_ Hl].
    destruct l as [[x y] z]. destruct Hl as (H1 & H2 & H3). simpl.
    intros i Hi. rewrite !elem_of_cons in Hi.
    destruct Hi as [->|[->|[->|Hnil]]]; try done. by apply elem_of_nil in Hnil.
  - intros Hnot.
    destruct (calculateWinner (board (run initial acts))) as [res|] eqn:Hc;
      [|done].
    destruct (calculateWinner_shape _ _ Hc) as [(m & l & _ & _ & ->)| ->];
      [|done].
    by destruct (Hnot m l).
Qed.

(** ** Boards of the data model along a game *)

Lemma wf_write (b : list value) k p :
  wf_board b -> k < length b -> wf_board (write b k (Mark p)).
Proof.
  intros [Hlen Hno] Hk. unfold write. rewrite decide_True by done. split.
  - by rewrite length_insert.
  - by apply Forall_insert.
Qed.

Lemma falsy_in_range_empty (b : list value) k :
  wf_board b -> k < 9 -> truthy (read b k) = false -> empty_at b k.
Proof.
  intros Hwf Hk Hf. apply falsy_empty_at; [done| |done].
  destruct Hwf as [-> _]. done.
Qed.

Lemma wf_step st a :
  wf_board (board st) -> click_in_range a -> wf_board (board (step st a)).
Proof.
  intros Hwf Hr. destruct a as [i|rnd rnd'| | |m]; simpl in Hr.
  - destruct (move_cases st (Click i) I)
      as [->|(_ & k & Hk & Hki & _ & -> & _)]; [done|].
    rewrite (Hki i eq_refl). apply wf_write; [done|].
    destruct Hwf as [-> _]. done.
  - destruct (move_cases st (CpuTimer rnd rnd') I)
      as [->|(_ & k & Hk & _ & Hcpu & -> & _)]; [done|].
    destruct (Hcpu rnd rnd' eq_refl) as [_ Hnull].
    apply wf_write; [done|].
    apply read_Null_empty_at in Hnull; [|done].
    by apply lookup_lt_Some in Hnull.
  - unfold step. rewrite board_scoreEffect.
    split; [done | repeat constructor; done].
  - done.
  - unfold step. rewrite board_scoreEffect.
    split; [done | repeat constructor; done].
Qed.

Lemma count_partition (b : list value) :
  Forall (fun v => v <> Undefined) b ->
  marks X b + marks O b + nulls b = length b.
Proof.
  unfold marks, nulls. induction 1 as [|v b Hv Hb IH]; [done|].
  rewrite !filter_cons. destruct v as [| |[|]]; simpl; [done|lia..].
Qed.

Lemma wf_run (st : session) (acts : list action) :
  wf_board (board st) ->
  Forall click_in_range acts ->
  wf_board (board (run st acts)).
Proof.
  intros Hwf Hacts. revert st Hwf.
  induction Hacts as [|a acts Ha _ IH]; intros st Hwf; [done|].
  change (run st (a :: acts)) with (run (step st a) acts).
  apply IH. by apply wf_step.
Qed.

(** X5. As long as every click is on one of the nine rendered cells, the
    board stays a board of the data model (9 cells, each [null], ['X'] or
    ['O']) through every sequence of events, whatever the random sources;
    its X, O and empty cells always add up to nine. *)
Theorem boards_stay_well_formed (st : session) (acts : list action) :
  wf_board (board st) ->
  Forall click_in_range acts ->
  let b := board (run st acts) in
  wf_board b /\ marks X b + marks O b + nulls b = 9.
Proof.
  intros Hwf Hacts b.
  assert (wf_board b) as Hb by (by apply wf_run).
  split; [done|]. destruct Hb as [<- Hno]. by apply count_partition.
Qed.

Lemma nulls_insert (b : list value) k p :
  empty_at b k -> nulls (<[k:=Mark p]> b) + 1 = nulls b.
Proof.
  intros Hk. unfold nulls.
  pose proof (count_insert (fun v => v = Null) b k (Mark p) Null Hk) as Hc.
  rewrite decide_True in Hc by done. rewrite decide_False in Hc by done.
  lia.
Qed.

(** The cell an effective move fills. *)
Lemma effective_move_cell (st : session) (a : action) :
  wf_board (board st) -> is_move a -> click_in_range a ->
  step st a <> st ->
  exists k, empty_at (board st) k
            /\ board (step st a) = <[k:=Mark (mover st)]> (board st).
Proof.
  intros Hwf Ha Hr Hchanged.
  destruct (move_cases st a Ha)
    as [Hsame|(Hc & k & Hk & Hclick & Hcpu & Hb & Hx & Hm)]; [done|].
  assert (empty_at (board st) k) as He.
  { destruct a as [i|rnd rnd'| | |m]; try done.
    - rewrite (Hclick i eq_refl) in *. by apply falsy_in_range_empty.
    - destruct (Hcpu rnd rnd' eq_refl) as [_ Hnull].
      by apply read_Null_empty_at in Hnull. }
  exists k. split; [done|]. rewrite Hb. unfold write.
  rewrite decide_True; [done|]. by apply lookup_lt_Some in He.
Qed.

(** X6. On a board of the data model, a click in 0..8 or a firing of the
    CPU timer that changes the state happens while the status line shows
    the mover's turn; it puts the mover's mark on exactly one cell that was
    empty and leaves every other cell, so that one empty cell fewer remains;
    it passes the turn and keeps the mode. *)
Theorem move_fills_one_empty_cell (st : session) (a : action) :
  wf_board (board st) -> is_move a -> click_in_range a ->
  step st a <> st ->
  status st = String.append "Turn: " (player_string (mover st))
  /\ exists k,
       empty_at (board st) k
       /\ board (step st a) = <[k:=Mark (mover st)]> (board st)
       /\ nulls (board (step st a)) + 1 = nulls (board st)
       /\ xIsNext (step st a) = negb (xIsNext st)
       /\ mode (step st a) = mode st.
Proof.
  intros Hwf Ha Hr Hchanged.
  destruct (effective_move_cell st a Hwf Ha Hr Hchanged) as (k & He & Hb).
  destruct (move_cases st a Ha)
    as [Hsame|(Hc & _ & _ & _ & _ & _ & Hx & Hm)]; [done|].
  split.
  { unfold status, mover. rewrite Hc. by destruct (xIsNext st). }
  exists k. repeat split; try done. rewrite Hb. by apply nulls_insert.
Qed.

(** ** When an event takes effect *)

Lemma handleClick_accepts i st :
  calculateWinner (board st) = None ->
  truthy (read (board st) i) = false ->
  ~ cpu_turn st ->
  handleClick i st
  = Some (mkSession (write (board st) i (Mark (mover st)))
                    (negb (xIsNext st)) (mode st) (scores st) (highlight st)).
Proof.
  intros Hc Hf Hturn. unfold handleClick, mover. rewrite Hc, Hf.
  rewrite bool_decide_eq_false_2 by (by intros [? ?]). simpl.
  destruct (bool_decide (mode st = cpu) && negb (xIsNext st)) eqn:Hg; [|done].
  exfalso. apply Hturn. apply andb_true_iff in Hg as [Hm Hx].
  apply bool_decide_eq_true in Hm. split; [done|]. by destruct (xIsNext st).
Qed.

(** X7. The guards of [handleClick] are exact on the rendered cells: on a
    board of the data model a click on cell [i] in 0..8 changes the state
    if and only if the game is going on, cell [i] is empty and it is not
    the computer's turn. *)
Theorem click_takes_effect_iff (st : session) (i : nat) :
  wf_board (board st) -> i < 9 ->
  step st (Click i) <> st
  <-> calculateWinner (board st) = None
      /\ empty_at (board st) i
      /\ ~ cpu_turn st.
Proof.
  intros Hwf Hi. split.
  - intros Hchanged. simpl in Hchanged.
    destruct (handleClick i st) as [st'|] eqn:Hh; [|done].
    destruct (handleClick_Some _ _ _ Hh) as (Hc & Hf & Hturn & _).
    repeat split; try done. by apply falsy_in_range_empty.
  - intros (Hc & He & Hturn) Hsame.
    assert (truthy (read (board st) i) = false) as Hf.
    { unfold read. by rewrite He. }
    simpl in Hsame. rewrite (handleClick_accepts i st Hc Hf Hturn) in Hsame.
    assert (board st !! i = Some (Mark (mover st))) as Hmark.
    { rewrite <- Hsame at 1. rewrite board_scoreEffect. simpl.
      apply lookup_write_eq. }
    rewrite He in Hmark. done.
Qed.

(** X8. The computer moves exactly when it should, and then it does move:
    on a board of the data model, with the random index in range, a firing
    of the CPU timer changes the state if and only if the mode is [cpu], O
    is to move and the game is going on; in that case it places one O on
    the empty cell [findBestAIMove] chose, leaves the other cells, and
    hands the turn to X. *)
Theorem cpu_moves_iff_its_turn rnd rnd' (st : session) :
  wf_board (board st) -> in_range rnd ->
  (step st (CpuTimer rnd rnd') <> st
   <-> cpu_turn st /\ calculateWinner (board st) = None)
  /\ (cpu_turn st -> calculateWinner (board st) = None ->
      exists k, findBestAIMove rnd (board st) O X = Some k
                /\ empty_at (board st) k
                /\ board (step st (CpuTimer rnd rnd'))
                   = <[k:=Mark O]> (board st)
                /\ xIsNext (step st (CpuTimer rnd rnd')) = true).
Proof.
  intros Hwf Hr.
  assert (cpu_turn st -> calculateWinner (board st) = None ->
          exists k, findBestAIMove rnd (board st) O X = Some k
                    /\ empty_at (board st) k
                    /\ step st (CpuTimer rnd rnd')
                       = scoreEffect
                           (mkSession (<[k:=Mark O]> (board st)) true
                              (mode st) (scores st) (highlight st))) as Hmove.
  { intros [Hm Hx] Hc.
    destruct (findBestAIMove rnd (board st) O X) as [k|] eqn:Hk.
    2: { destruct (ongoing_has_empty _ Hc) as [i Hi].
         by destruct (findBestAIMove_None _ Hwf rnd O X Hr Hk i). }
    destruct (findBestAIMove_Some _ Hwf _ _ _ _ Hk) as [Hk9 He].
    exists k. split; [done|]. split; [done|].
    simpl. unfold cpuMove. rewrite Hk, Hc, Hx. simpl.
    rewrite bool_decide_eq_true_2 by done. simpl.
    rewrite decide_True by (by apply read_Null_empty_at).
    unfold write. rewrite decide_True; [done|]. by apply lookup_lt_Some in He. }
  split.
  - split.
    + intros Hchanged. simpl in Hchanged.
      destruct (cpuMove rnd rnd' st) as [st'|] eqn:Hh; [|done].
      by destruct (cpuMove_Some _ _ _ _ Hh) as (Hc & Hturn & _).
    + intros [Hturn Hc] Hsame.
      destruct (Hmove Hturn Hc) as (k & _ & He & Hstep).
      assert (board st !! k = Some (Mark O)) as Hmark.
      { rewrite <- Hsame at 1. rewrite Hstep, board_scoreEffect. simpl.
        apply list_lookup_insert_eq. by apply lookup_lt_Some in He. }
      rewrite He in Hmark. done.
  - intros Hturn Hc. destruct (Hmove Hturn Hc) as (k & Hk & He & Hstep).
    exists k. rewrite Hstep, board_scoreEffect, xIsNext_scoreEffect. done.
Qed.

(** ** Center, corners, sides *)

Lemma in_range_draw_at idx : in_range (draw_at idx).
Proof. intros n Hn. unfold draw_at. case_decide; lia. Qed.

Lemma tier_skipped (b : list value) p :
  wf_board b -> (forall i, ~ wins_by b p i) ->
  List.find (winsAt b p) (emptyIndices b) = None.
Proof.
  intros Hwf Hno. destruct (List.find _ _) as [k|] eqn:Hk; [|done].
  destruct (tier_Some b Hwf _ _ Hk) as [Hw _]. by apply Hno in Hw.
Qed.

(** Drawing from the empty cells among the candidates [l]: the draw is one
    of them, and each of them is drawn by some source in range. *)
Lemma draw_candidates rnd (b : list value) (l : list nat) :
  wf_board b -> in_range rnd ->
  (exists c, c ∈ l /\ empty_at b c) ->
  let cs := filter (fun i => read b i = Null) l in
  length cs <> 0
  /\ (exists k, cs !! rnd (length cs) = Some k /\ k ∈ l /\ empty_at b k)
  /\ (forall c, c ∈ l -> empty_at b c ->
        exists rnd0, in_range rnd0 /\ cs !! rnd0 (length cs) = Some c).
Proof.
  intros Hwf Hr (c & Hc & He) cs.
  assert (length cs <> 0) as Hlen by (by apply (candidates_nonempty b Hwf l c)).
  split; [done|]. split.
  - destruct (pick_in_range rnd cs Hr Hlen) as (k & Hk & Hin).
    exists k. split; [done|]. by apply (candidates_empty b Hwf).
  - intros c' Hc' He'.
    assert (c' ∈ cs) as Hin.
    { apply list_elem_of_filter. split; [|done]. by apply read_Null_empty_at. }
    apply list_elem_of_lookup_1 in Hin as [idx Hidx].
    exists (draw_at idx). split; [apply in_range_draw_at|].
    unfold draw_at. rewrite decide_True; [done|]. by apply lookup_lt_Some in Hidx.
Qed.

(** X9. The fall-back order is center, then corner, then side. On a board
    of the data model where neither player can win at once, with the
    random index in range: if the center is empty [findBestAIMove] returns
    4; otherwise, if a corner is empty, it returns an empty corner, and
    every empty corner is returned for some random source; otherwise, if a
    side is empty, it returns an empty side, and every empty side is
    returned for some random source. *)
Theorem fallback_center_corner_side rnd (b : list value) (ai human : player) :
  wf_board b -> in_range rnd ->
  (forall i, ~ wins_by b ai i) -> (forall i, ~ wins_by b human i) ->
  (empty_at b 4 -> findBestAIMove rnd b ai human = Some 4)
  /\ (~ empty_at b 4 ->
      (exists c, c ∈ [0; 2; 6; 8] /\ empty_at b c) ->
      (exists k, findBestAIMove rnd b ai human = Some k
                 /\ k ∈ [0; 2; 6; 8] /\ empty_at b k)
      /\ (forall c, c ∈ [0; 2; 6; 8] -> empty_at b c ->
            exists rnd0, in_range rnd0
                         /\ findBestAIMove rnd0 b ai human = Some c))
  /\ (~ empty_at b 4 ->
      (forall c, c ∈ [0; 2; 6; 8] -> ~ empty_at b c) ->
      (exists s, s ∈ [1; 3; 5; 7] /\ empty_at b s) ->
      (exists k, findBestAIMove rnd b ai human = Some k
                 /\ k ∈ [1; 3; 5; 7] /\ empty_at b k)
      /\ (forall s, s ∈ [1; 3; 5; 7] -> empty_at b s ->
            exists rnd0, in_range rnd0
                         /\ findBestAIMove rnd0 b ai human = Some s)).
Proof.
  intros Hwf Hr Hai Hhuman.
  assert (forall r, findBestAIMove r b ai human
          = if decide (read b 4 = Null) then Some 4 else
            let corners := filter (fun i => read b i = Null) [0; 2; 6; 8] in
            if decide (length corners ≠ 0) then corners !! r (length corners)
            else
              let sides := filter (fun i => read b i = Null) [1; 3; 5; 7] in
              if decide (length sides ≠ 0) then sides !! r (length sides)
              else None) as Hunfold.
  { intros r. unfold findBestAIMove.
    by rewrite (tier_skipped b ai Hwf Hai), (tier_skipped b human Hwf Hhuman). }
  split; [|split].
  - intros H4. rewrite Hunfold, decide_True; [done|].
    by apply read_Null_empty_at.
  - intros H4 Hex.
    assert (read b 4 <> Null) as H4' by (by rewrite read_Null_empty_at).
    destruct (draw_candidates rnd b [0; 2; 6; 8] Hwf Hr Hex)
      as (Hlen & (k & Hk & Hin & He) & Hall).
    split.
    + exists k. rewrite Hunfold, decide_False by done. simpl.
      by rewrite decide_True.
    + intros c Hc Hec. destruct (Hall c Hc Hec) as (rnd0 & Hr0 & Hk0).
      exists rnd0. split; [done|]. rewrite Hunfold, decide_False by done.
      simpl. by rewrite decide_True.
  - intros H4 Hnoc Hex.
    assert (read b 4 <> Null) as H4' by (by rewrite read_Null_empty_at).
    assert (length (filter (fun i => read b i = Null) [0; 2; 6; 8]) = 0)
      as Hc0.
    { destruct (filter _ [0; 2; 6; 8]) as [|c cs] eqn:Hcs; [done|].
      assert (c ∈ filter (fun i => read b i = Null) [0; 2; 6; 8]) as Hin
        by (rewrite Hcs; left).
      apply (candidates_empty b Hwf) in Hin as [Hin He].
      by destruct (Hnoc c Hin). }
    destruct (draw_candidates rnd b [1; 3; 5; 7] Hwf Hr Hex)
      as (Hlen & (k & Hk & Hin & He) & Hall).
    split.
    + exists k. rewrite Hunfold, decide_False by done. simpl.
      rewrite decide_False by (by intros ?). by rewrite decide_True.
    + intros s Hs Hes. destruct (Hall s Hs Hes) as (rnd0 & Hr0 & Hk0).
      exists rnd0. split; [done|]. rewrite Hunfold, decide_False by done.
      simpl. rewrite decide_False by (by intros ?). by rewrite decide_True.
Qed.

(** ** The two lists of empty cells *)

Lemma pickRandomMove_candidates (b : list value) k :
  k ∈ omap id (imap (fun i v => if truthy v then None
                                else match v with
                                     | Undefined => None
                                     | _ => Some i
                                     end) b)
  <-> empty_at b k.
Proof.
  split.
  - intros (x & Hx & Hid)%list_elem_of_omap.
    apply elem_of_lookup_imap in Hx as (i & v & -> & Hv).
    destruct v; simpl in Hid; try done. by injection Hid as <-.
  - intros He. apply list_elem_of_omap. exists (Some k). split; [|done].
    apply elem_of_lookup_imap. by exists k, Null.
Qed.

(** X10. [pickRandomMove] on any array, with the random index in range:
    it returns [null] exactly when no cell is [null]; a returned index is
    always a [null] cell; and every [null] cell is returned for some random
    source. *)
Theorem pickRandomMove_spec rnd (b : list value) :
  in_range rnd ->
  (pickRandomMove rnd b = None <-> forall i, ~ empty_at b i)
  /\ (forall k, pickRandomMove rnd b = Some k -> empty_at b k)
  /\ (forall k, empty_at b k ->
        exists rnd0, in_range rnd0 /\ pickRandomMove rnd0 b = Some k).
Proof.
  intros Hr. split; [|split].
  - split; [|apply pickRandomMove_full].
    unfold pickRandomMove. intros Hnone i He.
    apply pickRandomMove_candidates in He.
    destruct (decide (length (omap id (imap _ b)) = 0)) as [Hlen|Hlen].
    + apply nil_length_inv in Hlen. rewrite Hlen in He.
      by apply elem_of_nil in He.
    + destruct (pick_in_range rnd _ Hr Hlen) as (k & Hk & _). congruence.
  - intros k. apply pickRandomMove_empty.
  - intros k He. apply pickRandomMove_candidates in He.
    apply list_elem_of_lookup_1 in He as [idx Hidx].
    exists (draw_at idx). split; [apply in_range_draw_at|].
    assert (idx < length (omap id (imap (fun i v =>
              if truthy v then None
              else match v with Undefined => None | _ => Some i end) b)))
      as Hlt by (by apply lookup_lt_Some in Hidx).
    unfold pickRandomMove. rewrite decide_False by lia.
    unfold draw_at. by rewrite decide_True.
Qed.

Lemma empties_offset (pre b : list value) :
  Forall (fun v => v <> Undefined) b ->
  omap id (imap (fun i v => if truthy v then None
                            else match v with
                                 | Undefined => None
                                 | _ => Some (length pre + i)
                                 end) b)
  = filter (fun i => truthy (read (pre ++ b) i) = false)
           (seq (length pre) (length b)).
Proof.
  intros Hb. revert pre. induction Hb as [|v b Hv Hb IH]; intros pre; [done|].
  rewrite imap_cons. simpl length. simpl seq. rewrite filter_cons.
  assert (read (pre ++ v :: b) (length pre) = v) as Hread.
  { unfold read. by rewrite list_lookup_middle. }
  rewrite Hread.
  assert (omap id (imap ((fun i v0 => if truthy v0 then None
                           else match v0 with
                                | Undefined => None
                                | _ => Some (length pre + i)
                                end) ∘ S) b)
          = filter (fun i => truthy (read (pre ++ v :: b) i) = false)
                   (seq (S (length pre)) (length b))) as Htail.
  { specialize (IH (pre ++ [v])).
    rewrite <- app_assoc in IH. simpl in IH.
    rewrite length_app in IH. simpl in IH.
    replace (length pre + 1) with (S (length pre)) in IH by lia.
    rewrite <- IH. f_equal. apply imap_ext. intros i x _. simpl.
    by replace (length pre + S i) with (S (length pre) + i) by lia. }
  assert (forall (x : option nat) l,
            omap id (x :: l)
            = match x with Some y => y :: omap id l | None => omap id l end)
    as Hcons by done.
  rewrite Hcons, Htail.
  destruct v as [| |p]; [done| |]; simpl.
  - by rewrite Nat.add_0_r.
  - done.
Qed.

Lemma sorted_filter_seq (P : nat -> Prop) `{!forall i, Decision (P i)} a n :
  StronglySorted lt (filter P (seq a n)).
Proof.
  revert a. induction n as [|n IH]; intros a; simpl; [constructor|].
  rewrite filter_cons. destruct (decide (P a)); [|apply IH].
  apply StronglySorted_cons. split; [|apply IH].
  apply Forall_forall. intros x [_ Hx%elem_of_seq]%list_elem_of_filter. lia.
Qed.

(** X11. On an array without holes, [emptyIndices] lists exactly the
    [null] cells, each once and in ascending order, and [pickRandomMove]
    draws from that same list: the two computations of the empty cells in
    the file agree. *)
Theorem emptyIndices_spec rnd (b : list value) :
  Forall (fun v => v <> Undefined) b ->
  StronglySorted lt (emptyIndices b)
  /\ (forall i, i ∈ emptyIndices b <-> empty_at b i)
  /\ pickRandomMove rnd b = emptyIndices b !! rnd (length (emptyIndices b)).
Proof.
  intros Hb.
  assert (omap id (imap (fun i v => if truthy v then None
                                    else match v with
                                         | Undefined => None
                                         | _ => Some i
                                         end) b)
          = emptyIndices b) as Heq.
  { apply (empties_offset [] b Hb). }
  split; [apply sorted_filter_seq|]. split.
  - intros i. rewrite <- Heq. apply pickRandomMove_candidates.
  - unfold pickRandomMove. rewrite Heq. case_decide as Hlen; [|done].
    apply nil_length_inv in Hlen. by rewrite Hlen.
Qed.

(** ** The scores and the game *)

(** X12. The scoreboard never influences play: two states that agree on
    board, turn, mode and highlight show the same status line and, after
    the same event, agree on board, turn, mode and highlight again. In
    particular [resetScores] at any time leaves the game as it is. *)
Theorem scores_never_influence_play (st1 st2 : session) (a : action) :
  game st1 = game st2 ->
  status st1 = status st2
  /\ game (step st1 a) = game (step st2 a)
  /\ game (step st1 ResetScores) = game st1.
Proof.
  destruct st1 as [b1 x1 m1 s1 h1], st2 as [b2 x2 m2 s2 h2].
  unfold game. simpl. intros [= -> -> -> ->].
  split; [done|]. split; [|done].
  destruct a as [i|rnd rnd'| | |m]; simpl; try done.
  - unfold handleClick; simpl.
    destruct (_ || _); [done|]. destruct (_ && _); [done|].
    unfold scoreEffect; simpl.
    destruct (calculateWinner _) as [res|]; [|done].
    destruct (winner res); [| |done]; by destruct (isDraw res).
  - unfold cpuMove; simpl.
    destruct (_ && _ && _); [|done]. destruct (orElse _ _); [|done].
    destruct (decide _); [|done].
    unfold scoreEffect; simpl.
    destruct (calculateWinner _) as [res|]; [|done].
    destruct (winner res); [| |done]; by destruct (isDraw res).
Qed.

(** X13. Within a session the counters only grow: an event other than
    [resetScores] lowers none of the three counters and raises their sum
    by at most one. *)
Theorem scores_never_decrease (st : session) (a : action) :
  a <> ResetScores ->
  (forall c, count c (scores st) <= count c (scores (step st a)))
  /\ total (scores (step st a)) <= total (scores st) + 1.
Proof.
  intros Ha. rewrite scores_step.
  assert (forall before after s,
            (forall c, count c s <= count c (credit before after s))
            /\ total (credit before after s) <= total s + 1) as Hcredit.
  { intros before after s. unfold credit, total.
    destruct before; [split; [done|lia]|].
    destruct after as [res|]; [|split; [done|lia]].
    destruct (winner res) as [| |[|]]; simpl;
      (split; [intros []; simpl; lia | lia]). }
  destruct a; try done; apply Hcredit.
Qed.

Lemma every_Boolean_nulls (b : list value) :
  every_Boolean b = true -> nulls b = 0.
Proof.
  unfold every_Boolean, nulls. induction b as [|v b IH]; simpl; [done|].
  rewrite filter_cons. destruct v; simpl; try done; intros H; by apply IH.
Qed.

Lemma Draw_every_Boolean (b : list value) :
  calculateWinner b = Some Draw -> every_Boolean b = true.
Proof.
  unfold calculateWinner. destruct (scanLines b LINES) as [res|] eqn:Hs.
  - destruct (scanLines_Some _ _ _ Hs) as (_ & l & _ & p & _ & _ & _ & ->).
    intros [= H]. by apply Won_not_Draw in H.
  - by destruct (every_Boolean b).
Qed.

(** X14. A drawn game always shows five X and four O: after a sequence of
    events from the initial state whose clicks are all on the nine rendered
    cells, if the board is a draw then it holds exactly five X and four O,
    and the last move was X's. *)
Theorem draw_is_five_to_four (acts : list action) :
  Forall click_in_range acts ->
  let st := run initial acts in
  calculateWinner (board st) = Some Draw ->
  marks X (board st) = 5 /\ marks O (board st) = 4 /\ xIsNext st = false.
Proof.
  intros Hacts st Hdraw.
  assert (wf_board (board st)) as [Hlen Hno].
  { apply wf_run; [|done]. split; [done | repeat constructor; done]. }
  pose proof (count_partition _ Hno) as Hsum.
  pose proof (every_Boolean_nulls _ (Draw_every_Boolean _ Hdraw)) as Hnull.
  assert (marks X (board st)
          = marks O (board st) + (if xIsNext st then 0 else 1)) as Hpar.
  { apply (run_invariant (fun st =>
      marks X (board st) = marks O (board st) + (if xIsNext st then 0 else 1)));
      [done|]. intros st' a. apply parity_step. }
  destruct (xIsNext st); lia.
Qed.

(** ** The length of a game *)

Lemma nulls_step (st : session) (a : action) :
  wf_board (board st) -> is_move a -> click_in_range a ->
  nulls (board (step st a)) + (if decide (step st a = st) then 0 else 1)
  = nulls (board st).
Proof.
  intros Hwf Ha Hr. destruct (decide (step st a = st)) as [->|Hchanged]; [lia|].
  destruct (effective_move_cell st a Hwf Ha Hr Hchanged) as (k & He & ->).
  by apply nulls_insert.
Qed.

(** X15. No game takes more than nine moves: on a board of the data
    model, along any sequence of clicks in 0..8 and firings of the CPU
    timer, every event that changes the state uses up one empty cell, so the
    number of such events is the number of empty cells used and at most 9. *)
Theorem game_has_at_most_nine_moves (st : session) (acts : list action) :
  wf_board (board st) ->
  Forall is_move acts -> Forall click_in_range acts ->
  nulls (board (run st acts)) + effective st acts = nulls (board st)
  /\ effective st acts <= 9.
Proof.
  intros Hwf Hmoves Hr.
  assert (nulls (board (run st acts)) + effective st acts = nulls (board st))
    as Hsum.
  { revert st Hwf Hr. induction Hmoves as [|a acts Ha _ IH]; intros st Hwf Hr.
    - simpl. lia.
    - apply Forall_cons in Hr as [Hra Hr].
      change (run st (a :: acts)) with (run (step st a) acts). simpl.
      pose proof (nulls_step st a Hwf Ha Hra) as Hstep.
      pose proof (IH (step st a) (wf_step st a Hwf Hra) Hr) as Hrest.
      lia. }
  split; [done|].
  assert (nulls (board st) <= 9) as Hle.
  { destruct Hwf as [<- _]. apply length_filter. }
  lia.
Qed.

(** X16. The computer never misses an immediate win: on a board of the
    data model, when it is the computer's turn, the game is going on and
    some empty cell completes a line of O, the firing of the CPU timer
    (whatever the random sources) ends the game with O the winner, adds one
    to O's counter and highlights the winning line. *)
Theorem cpu_takes_immediate_win rnd rnd' (st : session) (i : nat) :
  wf_board (board st) -> cpu_turn st ->
  calculateWinner (board st) = None ->
  wins_by (board st) O i ->
  exists k l,
    least (wins_by (board st) O) k
    /\ board (step st (CpuTimer rnd rnd')) = <[k:=Mark O]> (board st)
    /\ calculateWinner (board (step st (CpuTimer rnd rnd'))) = Some (Won O l)
    /\ scores (step st (CpuTimer rnd rnd')) = addWin O (scores st)
    /\ highlight (step st (CpuTimer rnd rnd')) = line (Won O l).
Proof.
  intros Hwf [Hm Hx] Hc Hwin.
  destruct (tier_applies _ Hwf O (ex_intro _ i Hwin)) as (k & Hk & Hleast).
  pose proof Hleast as [[He [l Hl]] Hmin].
  assert (findBestAIMove rnd (board st) O X = Some k) as Hbest.
  { unfold findBestAIMove. by rewrite Hk. }
  assert (step st (CpuTimer rnd rnd')
          = scoreEffect (mkSession (<[k:=Mark O]> (board st)) true
                           (mode st) (scores st) (highlight st))) as Hstep.
  { simpl. unfold cpuMove. rewrite Hbest, Hc, Hx. simpl.
    rewrite bool_decide_eq_true_2 by done. simpl.
    rewrite decide_True by (by apply read_Null_empty_at).
    unfold write. rewrite decide_True; [done|]. by apply lookup_lt_Some in He. }
  exists k, l. split; [done|]. rewrite Hstep, board_scoreEffect. simpl.
  split; [done|]. split; [done|]. split.
  - by rewrite (scores_scoreEffect_Won _ O l).
  - unfold scoreEffect. simpl. rewrite Hl. by destruct l as [[x y] z].
Qed.

(** ** Blocking *)

(** On a board with the game going on, a line completed by placing one mark
    holds that mark. *)
Lemma fresh_line_is_movers (b : list value) j m l q :
  calculateWinner b = None -> l ∈ LINES ->
  holds (<[j:=Mark m]> b) l q -> q = m.
Proof.
  intros Hc Hin Hl. destruct l as [[x y] z]. destruct Hl as (H1 & H2 & H3).
  apply list_lookup_insert_Some in H1, H2, H3.
  destruct H1 as [(_ & [= ->] & _)|[Hx H1]]; [done|].
  destruct H2 as [(_ & [= ->] & _)|[Hy H2]]; [done|].
  destruct H3 as [(_ & [= ->] & _)|[Hz H3]]; [done|].
  assert (is_Some (calculateWinner b)) as [res Hres]
    by (by apply (holds_terminal _ (x, y, z) q)).
  congruence.
Qed.

Lemma single_mark_wins (s : list value) m :
  (exists l, l ∈ LINES /\ holds s l m) ->
  (forall l' q, l' ∈ LINES -> holds s l' q -> q = m) ->
  exists l, calculateWinner s = Some (Won m l).
Proof.
  intros (l & Hin & Hl) Hone.
  assert (is_Some (scanLines s LINES)) as [res Hres].
  { apply scanLines_some_line. by exists l, m. }
  destruct (scanLines_Some _ _ _ Hres)
    as (pre & l0 & post & p & HL & _ & Hl0 & ->).
  assert (p = m) as ->.
  { apply (Hone l0); [|done]. rewrite HL. apply elem_of_app. right. left. }
  exists l0. unfold calculateWinner. by rewrite Hres.
Qed.

Lemma cell_without_block (b : list value) k j c :
  j <> k ->
  <[j:=Mark X]> (<[k:=Mark O]> b) !! c = Some (Mark X) ->
  <[j:=Mark X]> b !! c = Some (Mark X).
Proof.
  intros Hjk Hc. apply list_lookup_insert_Some in Hc.
  apply list_lookup_insert_Some.
  destruct Hc as [(-> & _ & Hlt)|[Hne Hc]].
  - left. rewrite length_insert in Hlt. done.
  - right. split; [done|]. apply list_lookup_insert_Some in Hc.
    by destruct Hc as [(_ & [=] & _)|[_ Hc]].
Qed.

(** X17. The computer defuses a threat: on a board of the data model, when
    it is the computer's turn, the game is going on, O cannot win at once
    and X could win at some empty cell, the firing of the CPU timer puts O
    on the smallest cell where X could win and hands the turn to X; after
    it X can win at once only at cells where X could already win before,
    and no longer at the blocked one. *)
Theorem cpu_blocks_threat rnd rnd' (st : session) (i : nat) :
  wf_board (board st) -> cpu_turn st ->
  calculateWinner (board st) = None ->
  (forall j, ~ wins_by (board st) O j) ->
  wins_by (board st) X i ->
  exists k,
    least (wins_by (board st) X) k
    /\ board (step st (CpuTimer rnd rnd')) = <[k:=Mark O]> (board st)
    /\ xIsNext (step st (CpuTimer rnd rnd')) = true
    /\ forall j, wins_by (board (step st (CpuTimer rnd rnd'))) X j ->
                 j <> k /\ wins_by (board st) X j.
Proof.
  intros Hwf [Hm Hx] Hc HnoO Hthreat.
  destruct (tier_applies _ Hwf X (ex_intro _ i Hthreat)) as (k & Hk & Hleast).
  pose proof Hleast as [[He _] _].
  assert (k < length (board st)) as Hklt by (by apply lookup_lt_Some in He).
  assert (findBestAIMove rnd (board st) O X = Some k) as Hbest.
  { unfold findBestAIMove.
    by rewrite (tier_skipped _ O Hwf HnoO), Hk. }
  assert (step st (CpuTimer rnd rnd')
          = scoreEffect (mkSession (<[k:=Mark O]> (board st)) true
                           (mode st) (scores st) (highlight st))) as Hstep.
  { simpl. unfold cpuMove. rewrite Hbest, Hc, Hx. simpl.
    rewrite bool_decide_eq_true_2 by done. simpl.
    rewrite decide_True by (by apply read_Null_empty_at).
    unfold write. by rewrite decide_True. }
  exists k. split; [done|].
  rewrite Hstep, board_scoreEffect, xIsNext_scoreEffect. simpl.
  split; [done|]. split; [done|].
  intros j [Hej [l Hl]].
  assert (j <> k) as Hjk.
  { intros ->. unfold empty_at in Hej.
    by rewrite list_lookup_insert_eq in Hej. }
  split; [done|]. split.
  { unfold empty_at in *. by rewrite list_lookup_insert_ne in Hej. }
  destruct (calculateWinner_Won _ _ _ Hl) as [Hin Hholds].
  apply single_mark_wins.
  - exists l. split; [done|]. destruct l as [[x y] z].
    destruct Hholds as (H1 & H2 & H3).
    repeat split; by apply (cell_without_block _ k).
  - intros l' q Hin' Hl'. by apply (fresh_line_is_movers (board st) j X l' q).
Qed.

(** ** The further theorems at concrete inputs *)

(** Refutes [wins_by b p j] for all [j] on a concrete board. *)
Ltac refute_wins :=
  let j := fresh "j" in
  let He := fresh "He" in
  let Hl := fresh "Hl" in
  intros j [He [[[? ?] ?] Hl]];
  do 9 (destruct j as [|j];
        [vm_compute in He; vm_compute in Hl; done|]);
  vm_compute in He; clear Hl; done.

Lemma wf_before_win : wf_board (board before_win).
Proof. vm_compute. split; [reflexivity | repeat constructor; done]. Qed.

Lemma wf_cpu_must_block : wf_board (board cpu_must_block).
Proof. vm_compute. split; [reflexivity | repeat constructor; done]. Qed.

Lemma wf_cpu_can_win : wf_board (board cpu_can_win).
Proof. vm_compute. split; [reflexivity | repeat constructor; done]. Qed.

Lemma wf_initial : wf_board (board initial).
Proof. vm_compute. split; [reflexivity | repeat constructor; done]. Qed.

Lemma moves_keep_marks_witness :
  is_move (Click 2)
  /\ board before_win !! 0 = Some (Mark X)
  /\ board (step before_win (Click 2)) !! 0 = Some (Mark X).
Proof.
  split; [exact I|]. split; [vm_compute; reflexivity|].
  apply (moves_keep_marks before_win (Click 2) 0 X); [exact I | vm_compute; reflexivity].
Defined.

Lemma win_belongs_to_mover_witness :
  is_move (Click 2)
  /\ calculateWinner (board before_win) = None
  /\ calculateWinner (board (step before_win (Click 2)))
     = Some (Won X (0,1,2))
  /\ X = mover before_win.
Proof.
  split; [exact I|]. split; [vm_compute; reflexivity|]. split; [vm_compute; reflexivity|].
  apply (win_belongs_to_mover before_win (Click 2) X (0,1,2));
    [exact I | vm_compute; reflexivity | vm_compute; reflexivity].
Defined.

Lemma boards_stay_well_formed_witness :
  wf_board (board initial)
  /\ Forall click_in_range drawn_game
  /\ wf_board (board (run initial drawn_game)).
Proof.
  assert (Forall click_in_range drawn_game) as Hr
    by (repeat constructor; simpl; lia).
  split; [exact wf_initial|]. split; [exact Hr|].
  apply (boards_stay_well_formed initial drawn_game wf_initial Hr).
Defined.

Lemma move_fills_one_empty_cell_witness :
  wf_board (board before_win) /\ is_move (Click 2) /\ click_in_range (Click 2)
  /\ step before_win (Click 2) <> before_win
  /\ status before_win = String.append "Turn: " (player_string (mover before_win)).
Proof.
  assert (click_in_range (Click 2)) as Hr by (simpl; lia).
  assert (step before_win (Click 2) <> before_win) as Hne
    by (intros H; by vm_compute in H).
  split; [exact wf_before_win|]. split; [exact I|]. split; [exact Hr|].
  split; [exact Hne|].
  apply (move_fills_one_empty_cell before_win (Click 2) wf_before_win I Hr Hne).
Defined.

Lemma click_takes_effect_iff_witness :
  wf_board (board before_win) /\ 2 < 9
  /\ (step before_win (Click 2) <> before_win
      <-> calculateWinner (board before_win) = None
          /\ empty_at (board before_win) 2
          /\ ~ cpu_turn before_win).
Proof.
  assert (2 < 9) as Hlt by lia.
  split; [exact wf_before_win|]. split; [exact Hlt|].
  apply (click_takes_effect_iff before_win 2 wf_before_win Hlt).
Defined.

Lemma cpu_moves_iff_its_turn_witness :
  wf_board (board cpu_to_move) /\ in_range first_candidate
  /\ (step cpu_to_move (CpuTimer first_candidate second_candidate)
      <> cpu_to_move
      <-> cpu_turn cpu_to_move /\ calculateWinner (board cpu_to_move) = None).
Proof.
  split; [exact wf_cpu_to_move|]. split; [exact in_range_first_candidate|].
  apply (cpu_moves_iff_its_turn first_candidate second_candidate cpu_to_move
           wf_cpu_to_move in_range_first_candidate).
Defined.

Lemma fallback_center_corner_side_witness :
  wf_board center_taken /\ in_range first_candidate
  /\ (forall i, ~ wins_by center_taken O i)
  /\ (forall i, ~ wins_by center_taken X i)
  /\ exists k, findBestAIMove first_candidate center_taken O X = Some k
               /\ k ∈ [0; 2; 6; 8] /\ empty_at center_taken k.
Proof.
  assert (forall i, ~ wins_by center_taken O i) as HO by refute_wins.
  assert (forall i, ~ wins_by center_taken X i) as HX by refute_wins.
  split; [exact wf_center_taken|]. split; [exact in_range_first_candidate|].
  split; [exact HO|]. split; [exact HX|].
  destruct (fallback_center_corner_side first_candidate center_taken O X
              wf_center_taken in_range_first_candidate HO HX)
    as (_ & Hcorner & _).
  apply Hcorner.
  - intros H. by vm_compute in H.
  - exists 0. split; [left | vm_compute; reflexivity].
Defined.

Lemma pickRandomMove_spec_witness :
  in_range first_candidate
  /\ (pickRandomMove first_candidate x_threat = None
      <-> forall i, ~ empty_at x_threat i).
Proof.
  split; [exact in_range_first_candidate|].
  apply (pickRandomMove_spec first_candidate x_threat
           in_range_first_candidate).
Defined.

Lemma emptyIndices_spec_witness :
  Forall (fun v => v <> Undefined) center_taken
  /\ pickRandomMove second_candidate center_taken
     = emptyIndices center_taken
         !! second_candidate (length (emptyIndices center_taken)).
Proof.
  assert (Forall (fun v => v <> Undefined) center_taken) as Hno
    by (repeat constructor; done).
  split; [exact Hno|].
  apply (emptyIndices_spec second_candidate center_taken Hno).
Defined.

Lemma scores_never_influence_play_witness :
  game (step before_win ResetScores) = game before_win
  /\ game (step (step before_win ResetScores) (Click 2))
     = game (step before_win (Click 2)).
Proof.
  assert (game (step before_win ResetScores) = game before_win) as Hg
    by (vm_compute; reflexivity).
  split; [exact Hg|].
  apply (scores_never_influence_play
           (step before_win ResetScores) before_win (Click 2) Hg).
Defined.

Lemma scores_never_decrease_witness :
  Click 2 <> ResetScores
  /\ total (scores (step before_win (Click 2)))
     <= total (scores before_win) + 1.
Proof.
  assert (Click 2 <> ResetScores) as Hne by done.
  split; [exact Hne|].
  apply (scores_never_decrease before_win (Click 2) Hne).
Defined.

Lemma draw_is_five_to_four_witness :
  Forall click_in_range drawn_game
  /\ calculateWinner (board (run initial drawn_game)) = Some Draw
  /\ marks X (board (run initial drawn_game)) = 5
  /\ marks O (board (run initial drawn_game)) = 4
  /\ xIsNext (run initial drawn_game) = false.
Proof.
  assert (Forall click_in_range drawn_game) as Hr
    by (repeat constructor; simpl; lia).
  split; [exact Hr|]. split; [vm_compute; reflexivity|].
  apply (draw_is_five_to_four drawn_game Hr). vm_compute; reflexivity.
Defined.

Lemma game_has_at_most_nine_moves_witness :
  wf_board (board initial)
  /\ Forall is_move three_clicks /\ Forall click_in_range three_clicks
  /\ nulls (board (run initial three_clicks)) + effective initial three_clicks
     = nulls (board initial)
  /\ effective initial three_clicks <= 9.
Proof.
  assert (Forall is_move three_clicks) as Hm by (repeat constructor).
  assert (Forall click_in_range three_clicks) as Hr
    by (repeat constructor; simpl; lia).
  split; [exact wf_initial|]. split; [exact Hm|]. split; [exact Hr|].
  apply (game_has_at_most_nine_moves initial three_clicks wf_initial Hm Hr).
Defined.

Lemma cpu_takes_immediate_win_witness :
  wf_board (board cpu_can_win) /\ cpu_turn cpu_can_win
  /\ calculateWinner (board cpu_can_win) = None
  /\ wins_by (board cpu_can_win) O 6
  /\ exists k l,
       least (wins_by (board cpu_can_win) O) k
       /\ board (step cpu_can_win
                   (CpuTimer second_candidate first_candidate))
          = <[k:=Mark O]> (board cpu_can_win)
       /\ calculateWinner
            (board (step cpu_can_win
                      (CpuTimer second_candidate first_candidate)))
          = Some (Won O l)
       /\ scores (step cpu_can_win
                    (CpuTimer second_candidate first_candidate))
          = addWin O (scores cpu_can_win)
       /\ highlight (step cpu_can_win
                       (CpuTimer second_candidate first_candidate))
          = line (Won O l).
Proof.
  assert (calculateWinner (board cpu_can_win) = None) as Hgo
    by (vm_compute; reflexivity).
  assert (cpu_turn cpu_can_win) as Hturn by (split; vm_compute; reflexivity).
  assert (wins_by (board cpu_can_win) O 6) as Hwin.
  { split; [vm_compute; reflexivity|]. exists (2,4,6). vm_compute; reflexivity. }
  split; [exact wf_cpu_can_win|]. split; [exact Hturn|].
  split; [vm_compute; reflexivity|]. split; [exact Hwin|].
  apply (cpu_takes_immediate_win second_candidate first_candidate
           cpu_can_win 6 wf_cpu_can_win Hturn Hgo Hwin).
Defined.

Lemma cpu_blocks_threat_witness :
  wf_board (board cpu_must_block) /\ cpu_turn cpu_must_block
  /\ calculateWinner (board cpu_must_block) = None
  /\ (forall j, ~ wins_by (board cpu_must_block) O j)
  /\ wins_by (board cpu_must_block) X 2
  /\ exists k,
       least (wins_by (board cpu_must_block) X) k
       /\ board (step cpu_must_block
                   (CpuTimer first_candidate second_candidate))
          = <[k:=Mark O]> (board cpu_must_block)
       /\ xIsNext (step cpu_must_block
                     (CpuTimer first_candidate second_candidate)) = true
       /\ forall j,
            wins_by (board (step cpu_must_block
                              (CpuTimer first_candidate second_candidate)))
                    X j ->
            j <> k /\ wins_by (board cpu_must_block) X j.
Proof.
  assert (calculateWinner (board cpu_must_block) = None) as Hgo
    by (vm_compute; reflexivity).
  assert (cpu_turn cpu_must_block) as Hturn by (split; vm_compute; reflexivity).
  assert (forall j, ~ wins_by (board cpu_must_block) O j) as HnoO
    by refute_wins.
  assert (wins_by (board cpu_must_block) X 2) as Hthreat.
  { split; [vm_compute; reflexivity|]. exists (0,1,2). vm_compute; reflexivity. }
  split; [exact wf_cpu_must_block|]. split; [exact Hturn|].
  split; [vm_compute; reflexivity|]. split; [exact HnoO|]. split; [exact Hthreat|].
  apply (cpu_blocks_threat first_candidate second_candidate
           cpu_must_block 2 wf_cpu_must_block Hturn Hgo HnoO Hthreat).
Defined.

(** ** Further runs on concrete inputs *)

(** The two states of the game against the computer used above. *)
Example cpu_game_boards :
  board cpu_must_block
  = [Mark X; Mark X; Null; Null; Mark O; Null; Null; Null; Null]
  /\ board cpu_can_win
     = [Mark X; Mark X; Mark O; Mark X; Mark O; Null; Null; Null; Null]
  /\ status cpu_can_win = "Turn: O"
  /\ status (step cpu_can_win (CpuTimer first_candidate second_candidate))
     = "O wins".
Proof. repeat split; vm_compute; reflexivity. Qed.

(** On an array with a hole the two lists of empty cells differ:
    [emptyIndices] counts the hole, [pickRandomMove] skips it. *)
Example hole_is_empty_for_emptyIndices_only :
  emptyIndices [Mark X; Undefined; Null] = [1; 2]
  /\ pickRandomMove first_candidate [Mark X; Undefined; Null] = Some 2
  /\ pickRandomMove second_candidate [Mark X; Undefined; Null] = Some 2.
Proof. repeat split; vm_compute; reflexivity. Qed.

(** Off the reachable states the effect can leave a stale highlight: on a
    drawn board it does not touch it. *)
Example stale_highlight_survives_draw :
  let st := mkSession (board (run initial drawn_game)) false pvp
                      (mkScores 0 0 0) [0; 1; 2] in
  highlight (scoreEffect st) = [0; 1; 2].
Proof. vm_compute. reflexivity. Qed.
